(** * GeographicLib: geodesic line positions, angle helpers and the
      intersection comparators, embedded over binary64 floats

    The development follows three source files:
    - [include/GeographicLib/Geodesic.hpp]: capability masks, [maxit],
      and the inline helpers [sq], [AngNormalize], [AngRound], [SinCosNorm];
    - [src/GeodesicLine.cpp]: the [GeodesicLine] constructor, the general
      [Position] routine and the overloads of [Position] and [ArcPosition]
      that forward to it;
    - [include/GeographicLib/Intersect.hpp]: [LineCaps], [d1], [XPoint],
      [SetComp], [RankPoint], [segmentmode] and the public [Dist].

    [Math::real] is the library's default, an IEEE binary64 [double]; it is
    embedded as Rocq's primitive [float], so [+ - * /], [abs], [sqrt] and the
    comparisons are the machine operations, NaN and signed zeros included.
    An [unsigned] mask is a [Z] combined with [Z.land] and [Z.lor] only (no
    operation on masks can leave the 32-bit range).  Output reference
    parameters are a record of locations threaded through the call.  Where a
    statement is about the number a float stands for, that number is its
    exact rational [value]. *)

From Stdlib Require Import ZArith QArith Qpower Floats Lia Bool List.
Import ListNotations.

Local Open Scope float_scope.

(** ** Capability masks ([Geodesic::captype] and [Geodesic::mask]) *)

Module Mask.
Local Open Scope Z_scope.

Definition CAP_NONE : Z := 0.
Definition CAP_C1 : Z := Z.shiftl 1 0.
Definition CAP_C1p : Z := Z.shiftl 1 1.
Definition CAP_C2 : Z := Z.shiftl 1 2.
Definition CAP_C3 : Z := Z.shiftl 1 3.
Definition CAP_C4 : Z := Z.shiftl 1 4.
Definition CAP_ALL : Z := 0x1F.
Definition OUT_ALL : Z := 0x7F80.

Definition NONE : Z := 0.
Definition LATITUDE : Z := Z.lor (Z.shiftl 1 7) CAP_NONE.
Definition LONGITUDE : Z := Z.lor (Z.shiftl 1 8) CAP_C3.
Definition AZIMUTH : Z := Z.lor (Z.shiftl 1 9) CAP_NONE.
Definition DISTANCE : Z := Z.lor (Z.shiftl 1 10) CAP_C1.
Definition DISTANCE_IN : Z := Z.lor (Z.lor (Z.shiftl 1 11) CAP_C1) CAP_C1p.
Definition REDUCEDLENGTH : Z := Z.lor (Z.lor (Z.shiftl 1 12) CAP_C1) CAP_C2.
Definition GEODESICSCALE : Z := Z.lor (Z.lor (Z.shiftl 1 13) CAP_C1) CAP_C2.
Definition AREA : Z := Z.lor (Z.shiftl 1 14) CAP_C4.
Definition ALL : Z := Z.lor OUT_ALL CAP_ALL.

(** The C++ truth value of an [unsigned]: non-zero. *)
Definition nonzero (m : Z) : bool := negb (m =? 0).

(** Position of the output bit of each mask inside [OUT_ALL]. *)
Definition bit_LATITUDE : Z := 7.
Definition bit_LONGITUDE : Z := 8.
Definition bit_AZIMUTH : Z := 9.
Definition bit_DISTANCE : Z := 10.
Definition bit_DISTANCE_IN : Z := 11.
Definition bit_REDUCEDLENGTH : Z := 12.
Definition bit_GEODESICSCALE : Z := 13.
Definition bit_AREA : Z := 14.

(** The enumerators of [enum mask]. *)
Definition values : list Z :=
  [NONE; LATITUDE; LONGITUDE; AZIMUTH; DISTANCE; DISTANCE_IN; REDUCEDLENGTH;
   GEODESICSCALE; AREA; ALL].

(** A set of capabilities put together from enumerators. *)
Definition union (ms : list Z) : Z := fold_right Z.lor NONE ms.
End Mask.

(** ** The ellipsoid object ([class Geodesic], data members) *)

Module Geodesic.
(** [GEOD_ORD] at the default precision ([GEOGRAPHICLIB_PREC == 1]). *)
Definition GEOD_ORD : Z := 6.
Definition nC1 : Z := GEOD_ORD.
Definition nC1p : Z := GEOD_ORD.
Definition nC2 : Z := GEOD_ORD.
Definition nC3 : Z := GEOD_ORD.
Definition nC4 : Z := GEOD_ORD.
Definition maxit : nat := 50.

Record t : Type := Build {
  _a : float; _r : float; _f : float; _f1 : float; _e2 : float;
  _ep2 : float; _n : float; _b : float; _c2 : float; _etol2 : float;
  _A3x : list float; _C3x : list float; _C4x : list float
}.

Definition sq (x : float) : float := x * x.

(** Place angle in [-180, 180).  Assumes x is in [-540, 540). *)
Definition AngNormalize (x : float) : float :=
  if 180 <=? x then x - 360 else if x <? -180 then x + 360 else x.

(** The [volatile] temporary only forbids folding [z - (z - y)] to [y];
    on floats the two subtractions are performed as written. *)
Definition AngRound (x : float) : float :=
  let z := 0.0625 in
  let y := abs x in
  let y := if y <? z then z - (z - y) else y in
  if x <? 0 then - y else y.
End Geodesic.

(** ** The geodesic line object ([class GeodesicLine], data members) *)

Module GeodesicLine.
Record t : Type := Build {
  _a : float; _r : float; _b : float; _c2 : float; _f1 : float;
  _caps : Z;
  _lat1 : float; _lon1 : float; _azi1 : float;
  _salp1 : float; _calp1 : float;
  _salp0 : float; _calp0 : float;
  _ssig1 : float; _csig1 : float; _somg1 : float; _comg1 : float;
  _k2 : float;
  _A1m1 : float; _C1a : list float; _B11 : float;
  _stau1 : float; _ctau1 : float;
  _C1pa : list float;
  _A2m1 : float; _C2a : list float; _B21 : float;
  _C3a : list float; _A3c : float; _B31 : float;
  _C4a : list float; _A4 : float; _B41 : float
}.
End GeodesicLine.

(** ** Output reference parameters of [Position]

    The eight [real&] parameters are eight locations; a call receives their
    current contents and returns the contents it leaves behind.  The
    convenience overloads pass one dummy variable for every output they do
    not ask for; [Position] never reads an output, so the locations are kept
    distinct here. *)

Record Outputs : Type := mkOutputs {
  lat2 : float; lon2 : float; azi2 : float; s12 : float;
  m12 : float; M12 : float; M21 : float; S12 : float
}.

Definition set_lat2 (o : Outputs) (v : float) : Outputs :=
  mkOutputs v (lon2 o) (azi2 o) (s12 o) (m12 o) (M12 o) (M21 o) (S12 o).
Definition set_lon2 (o : Outputs) (v : float) : Outputs :=
  mkOutputs (lat2 o) v (azi2 o) (s12 o) (m12 o) (M12 o) (M21 o) (S12 o).
Definition set_azi2 (o : Outputs) (v : float) : Outputs :=
  mkOutputs (lat2 o) (lon2 o) v (s12 o) (m12 o) (M12 o) (M21 o) (S12 o).
Definition set_s12 (o : Outputs) (v : float) : Outputs :=
  mkOutputs (lat2 o) (lon2 o) (azi2 o) v (m12 o) (M12 o) (M21 o) (S12 o).
Definition set_m12 (o : Outputs) (v : float) : Outputs :=
  mkOutputs (lat2 o) (lon2 o) (azi2 o) (s12 o) v (M12 o) (M21 o) (S12 o).
Definition set_M12 (o : Outputs) (v : float) : Outputs :=
  mkOutputs (lat2 o) (lon2 o) (azi2 o) (s12 o) (m12 o) v (M21 o) (S12 o).
Definition set_M21 (o : Outputs) (v : float) : Outputs :=
  mkOutputs (lat2 o) (lon2 o) (azi2 o) (s12 o) (m12 o) (M12 o) v (S12 o).
Definition set_S12 (o : Outputs) (v : float) : Outputs :=
  mkOutputs (lat2 o) (lon2 o) (azi2 o) (s12 o) (m12 o) (M12 o) (M21 o) v.

(** ** The number a float stands for *)

(** The exact value of a finite float; infinities and NaN are given 0. *)
Definition SF2Q (f : spec_float) : Q :=
  match f with
  | S754_finite s m e => (inject_Z (cond_Zopp s (Z.pos m)) * 2 ^ e)%Q
  | _ => 0%Q
  end.

Definition value (x : float) : Q := SF2Q (Prim2SF x).

(** The 53-bit mantissa shared by 180 (at exponent -45) and 360 (at -44),
    and the mantissa of 540 (at -43). *)
Definition m180 : positive := 6333186975989760.
Definition m540 : positive := 4749890231992320.

(** ** What the three files use but do not define

    The C library ([sin], [cos], [atan2], [floor]), [Math::hypot],
    [Constants::degree()], the static constant [Geodesic::eps2], the series
    routines of Geodesic.cpp and [GeodesicLine::Init] of GeodesicLine.hpp are
    taken as parameters: every theorem about the line holds for all of
    them.  Routines that fill an array receive its old contents and return
    the new ones. *)

Record Externals : Type := mkExternals {
  sin : float -> float;
  cos : float -> float;
  atan2 : float -> float -> float;
  floor : float -> float;
  hypot : float -> float -> float;
  degree : float;
  eps2 : float;
  SinCosSeries : bool -> float -> float -> list float -> Z -> float;
  A1m1f : float -> float;
  C1f : float -> list float -> list float;
  C1pf : float -> list float -> list float;
  A2m1f : float -> float;
  C2f : float -> list float -> list float;
  A3f : Geodesic.t -> float -> float;
  C3f : Geodesic.t -> float -> list float -> list float;
  C4f : Geodesic.t -> float -> list float -> list float;
  Init : GeodesicLine.t -> bool
}.

(** [Math::NaN()]: the quiet NaN. *)
Definition NaN : float := nan.

(** ** GeodesicLine.cpp *)

Section Line.
Variable E : Externals.

Local Abbreviation sin := (sin E).
Local Abbreviation cos := (cos E).
Local Abbreviation atan2 := (atan2 E).
Local Abbreviation floor := (floor E).
Local Abbreviation hypot := (hypot E).
Local Abbreviation degree := (degree E).
Local Abbreviation eps2 := (eps2 E).
Local Abbreviation SinCosSeries := (SinCosSeries E).

Import Mask.
Import GeodesicLine.

(** [Geodesic::SinCosNorm]: both references are divided by the hypotenuse. *)
Definition SinCosNorm (sinx cosx : float) : float * float :=
  let r := hypot sinx cosx in
  (sinx / r, cosx / r).

(** *** The constructor

    Its locals [sbet1], [cbet1] are named because the pole guard acts on
    them; [cbet1] is not a data member. *)

Definition ctor_sbet1_raw (g : Geodesic.t) (lat1 : float) : float :=
  Geodesic._f1 g * sin (lat1 * degree).

(** Ensure cbet1 = +epsilon at poles *)
Definition ctor_cbet1_raw (lat1 : float) : float :=
  if abs lat1 =? 90 then eps2 else cos (lat1 * degree).

(** [sbet1], [cbet1] after [SinCosNorm(sbet1, cbet1)]. *)
Definition ctor_bet1 (g : Geodesic.t) (lat1 : float) : float * float :=
  SinCosNorm (ctor_sbet1_raw g lat1) (ctor_cbet1_raw lat1).

(** [u] holds whatever the members contain before construction: the
    members of a capability that is not requested are left as they are. *)
Definition GeodesicLine_ctor (u : GeodesicLine.t) (g : Geodesic.t)
    (lat1 lon1 azi1 : float) (caps : Z) : GeodesicLine.t :=
  (* Always allow latitude and azimuth *)
  let caps' := Z.lor (Z.lor caps LATITUDE) AZIMUTH in
  let azi1 := Geodesic.AngNormalize azi1 in
  (* Guard against underflow in salp0 *)
  let azi1 := Geodesic.AngRound azi1 in
  let lon1 := Geodesic.AngNormalize lon1 in
  (* alp1 is in [0, pi] *)
  let alp1 := azi1 * degree in
  let salp1 := if azi1 =? -180 then 0 else sin alp1 in
  let calp1 := if abs azi1 =? 90 then 0 else cos alp1 in
  let '(sbet1, cbet1) := ctor_bet1 g lat1 in
  let salp0 := salp1 * cbet1 in
  let calp0 := hypot calp1 (salp1 * sbet1) in
  let ssig1 := sbet1 in
  let somg1 := salp0 * sbet1 in
  let csig1 :=
    if negb (sbet1 =? 0) || negb (calp1 =? 0) then cbet1 * calp1 else 1 in
  let comg1 := csig1 in
  let '(ssig1, csig1) := SinCosNorm ssig1 csig1 in
  let '(somg1, comg1) := SinCosNorm somg1 comg1 in
  let k2 := Geodesic.sq calp0 * Geodesic._ep2 g in
  let eps := k2 / (2 * (1 + sqrt (1 + k2)) + k2) in
  let c1 := nonzero (Z.land caps' CAP_C1) in
  let A1m1 := if c1 then A1m1f E eps else _A1m1 u in
  let C1a := if c1 then C1f E eps (_C1a u) else _C1a u in
  let B11 :=
    if c1 then SinCosSeries true ssig1 csig1 C1a Geodesic.nC1 else _B11 u in
  let s := sin B11 in
  let c := cos B11 in
  (* tau1 = sig1 + B11 *)
  let stau1 := if c1 then ssig1 * c + csig1 * s else _stau1 u in
  let ctau1 := if c1 then csig1 * c - ssig1 * s else _ctau1 u in
  let C1pa :=
    if nonzero (Z.land caps' CAP_C1p) then C1pf E eps (_C1pa u)
    else _C1pa u in
  let c2 := nonzero (Z.land caps' CAP_C2) in
  let A2m1 := if c2 then A2m1f E eps else _A2m1 u in
  let C2a := if c2 then C2f E eps (_C2a u) else _C2a u in
  let B21 :=
    if c2 then SinCosSeries true ssig1 csig1 C2a Geodesic.nC2 else _B21 u in
  let c3 := nonzero (Z.land caps' CAP_C3) in
  let C3a := if c3 then C3f E g eps (_C3a u) else _C3a u in
  let A3c := if c3 then - Geodesic._f g * salp0 * A3f E g eps else _A3c u in
  let B31 :=
    if c3 then SinCosSeries true ssig1 csig1 C3a (Geodesic.nC3 - 1)
    else _B31 u in
  let c4 := nonzero (Z.land caps' CAP_C4) in
  let C4a := if c4 then C4f E g k2 (_C4a u) else _C4a u in
  (* Multiplier = a^2 * e^2 * cos(alpha0) * sin(alpha0) *)
  let A4 :=
    if c4 then Geodesic.sq (Geodesic._a g) * calp0 * salp0 * Geodesic._e2 g
    else _A4 u in
  let B41 :=
    if c4 then SinCosSeries false ssig1 csig1 C4a Geodesic.nC4 else _B41 u in
  {| _a := Geodesic._a g; _r := Geodesic._r g; _b := Geodesic._b g;
     _c2 := Geodesic._c2 g; _f1 := Geodesic._f1 g;
     _caps := caps';
     _lat1 := lat1; _lon1 := lon1; _azi1 := azi1;
     _salp1 := salp1; _calp1 := calp1;
     _salp0 := salp0; _calp0 := calp0;
     _ssig1 := ssig1; _csig1 := csig1; _somg1 := somg1; _comg1 := comg1;
     _k2 := k2;
     _A1m1 := A1m1; _C1a := C1a; _B11 := B11;
     _stau1 := stau1; _ctau1 := ctau1;
     _C1pa := C1pa;
     _A2m1 := A2m1; _C2a := C2a; _B21 := B21;
     _C3a := C3a; _A3c := A3c; _B31 := B31;
     _C4a := C4a; _A4 := A4; _B41 := B41 |}.

(** *** Position *)

(** The guard of the early exit:
    [Init() && (arcmode || (_caps & DISTANCE_IN & OUT_ALL))]. *)
Definition Position_possible (l : GeodesicLine.t) (arcmode : bool) : bool :=
  Init E l
  && (arcmode || nonzero (Z.land (Z.land (_caps l) DISTANCE_IN) OUT_ALL)).

(** The locals [sig12], [ssig12], [csig12], [B12] after the first
    [if (arcmode) ... else ...]. *)
Definition Position_sig12 (l : GeodesicLine.t) (arcmode : bool)
    (a12 : float) : float * float * float * float :=
  if arcmode then
    (* Interpret a12 as spherical arc length *)
    let sig12 := a12 * degree in
    let s12a := abs a12 in
    let s12a := s12a - 180 * floor (s12a / 180) in
    let ssig12 := if s12a =? 0 then 0 else sin sig12 in
    let csig12 := if s12a =? 90 then 0 else cos sig12 in
    (sig12, ssig12, csig12, 0)
  else
    (* Interpret a12 as distance *)
    let tau12 := a12 / (_b l * (1 + _A1m1 l)) in
    let s := sin tau12 in
    let c := cos tau12 in
    (* tau2 = tau1 + tau12 *)
    let B12 :=
      - SinCosSeries true (_stau1 l * c + _ctau1 l * s)
                          (_ctau1 l * c - _stau1 l * s)
                          (_C1pa l) Geodesic.nC1p in
    let sig12 := tau12 - (B12 - _B11 l) in
    (sig12, sin sig12, cos sig12, B12).

Definition Position (l : GeodesicLine.t) (arcmode : bool) (a12 : float)
    (outmask : Z) (o : Outputs) : float * Outputs :=
  let outmask := Z.land outmask (Z.land (_caps l) OUT_ALL) in
  if negb (Position_possible l arcmode) then
    (* Uninitialized or impossible distance calculation requested *)
    (NaN, o)
  else
    let '(sig12, ssig12, csig12, B12) := Position_sig12 l arcmode a12 in
    let AB1 := 0 in
    (* sig2 = sig1 + sig12 *)
    let ssig2 := _ssig1 l * csig12 + _csig1 l * ssig12 in
    let csig2 := _csig1 l * csig12 - _ssig1 l * ssig12 in
    let '(B12, AB1) :=
      if nonzero
           (Z.land outmask (Z.lor (Z.lor DISTANCE REDUCEDLENGTH) GEODESICSCALE))
      then
        let B12 :=
          if arcmode then SinCosSeries true ssig2 csig2 (_C1a l) Geodesic.nC1
          else B12 in
        (B12, (1 + _A1m1 l) * (B12 - _B11 l))
      else (B12, AB1) in
    (* sin(bet2) = cos(alp0) * sin(sig2) *)
    let sbet2 := _calp0 l * ssig2 in
    let cbet2 := hypot (_salp0 l) (_calp0 l * csig2) in
    (* I.e., salp0 = 0, csig2 = 0.  Break the degeneracy in this case *)
    let '(cbet2, csig2) :=
      if cbet2 =? 0 then (eps2, eps2) else (cbet2, csig2) in
    (* tan(omg2) = sin(alp0) * tan(sig2) *)
    let somg2 := _salp0 l * ssig2 in
    let comg2 := csig2 in
    (* tan(alp0) = cos(sig2)*tan(alp2) *)
    let salp2 := _salp0 l in
    let calp2 := _calp0 l * csig2 in
    (* omg12 = omg2 - omg1 *)
    let omg12 := atan2 (somg2 * _comg1 l - comg2 * _somg1 l)
                       (comg2 * _comg1 l + somg2 * _somg1 l) in
    let o :=
      if nonzero (Z.land outmask DISTANCE) then
        set_s12 o (if arcmode
                   then _b l * ((1 + _A1m1 l) * sig12 + AB1) else a12)
      else o in
    let o :=
      if nonzero (Z.land outmask LONGITUDE) then
        let lam12 :=
          omg12 + _A3c l *
            (sig12 + (SinCosSeries true ssig2 csig2 (_C3a l)
                                   (Geodesic.nC3 - 1) - _B31 l)) in
        let lon12 := lam12 / degree in
        let lon12 := lon12 - 360 * floor (lon12 / 360 + 0.5) in
        set_lon2 o (Geodesic.AngNormalize (_lon1 l + lon12))
      else o in
    let o :=
      if nonzero (Z.land outmask LATITUDE) then
        set_lat2 o (atan2 sbet2 (_f1 l * cbet2) / degree)
      else o in
    let o :=
      if nonzero (Z.land outmask AZIMUTH) then
        (* minus signs give range [-180, 180). 0- converts -0 to +0. *)
        set_azi2 o (0 - atan2 (- salp2) calp2 / degree)
      else o in
    let o :=
      if nonzero (Z.land outmask (Z.lor REDUCEDLENGTH GEODESICSCALE)) then
        let ssig1sq := Geodesic.sq (_ssig1 l) in
        let ssig2sq := Geodesic.sq ssig2 in
        let w1 := sqrt (1 + _k2 l * ssig1sq) in
        let w2 := sqrt (1 + _k2 l * ssig2sq) in
        let B22 := SinCosSeries true ssig2 csig2 (_C2a l) Geodesic.nC2 in
        let AB2 := (1 + _A2m1 l) * (B22 - _B21 l) in
        let J12 := (_A1m1 l - _A2m1 l) * sig12 + (AB1 - AB2) in
        let o :=
          if nonzero (Z.land outmask REDUCEDLENGTH) then
            set_m12 o (_b l * ((w2 * (_csig1 l * ssig2)
                                - w1 * (_ssig1 l * csig2))
                               - _csig1 l * csig2 * J12))
          else o in
        if nonzero (Z.land outmask GEODESICSCALE) then
          let o :=
            set_M12 o (csig12 + (_k2 l * (ssig2sq - ssig1sq) * ssig2
                                   / (w1 + w2)
                                 - csig2 * J12) * _ssig1 l / w1) in
          set_M21 o (csig12 - (_k2 l * (ssig2sq - ssig1sq) * _ssig1 l
                                 / (w1 + w2)
                               - _csig1 l * J12) * ssig2 / w2)
        else o
      else o in
    let o :=
      if nonzero (Z.land outmask AREA) then
        let B42 := SinCosSeries false ssig2 csig2 (_C4a l) Geodesic.nC4 in
        (* alp12 = alp2 - alp1, used in atan2 so no need to normalized *)
        let salp12 := salp2 * _calp1 l - calp2 * _salp1 l in
        let calp12 := calp2 * _calp1 l + salp2 * _salp1 l in
        let '(salp12, calp12) :=
          if (salp12 =? 0) && (calp12 <? 0)
          then (eps2 * _calp1 l, -1) else (salp12, calp12) in
        set_S12 o (_c2 l * atan2 salp12 calp12 + _A4 l * (B42 - _B41 l))
      else o in
    (if arcmode then a12 else sig12 / degree, o).
(** The distance [s12] in metres that belongs to the arc length [a12]: the
    value line 190 assigns to the [s12] output in arc mode, with the locals
    of lines 141-172 it is computed from. *)
Definition arc_distance (l : GeodesicLine.t) (a12 : float) : float :=
  let '(sig12, ssig12, csig12, _) := Position_sig12 l true a12 in
  let ssig2 := _ssig1 l * csig12 + _csig1 l * ssig12 in
  let csig2 := _csig1 l * csig12 - _ssig1 l * ssig12 in
  let B12 := SinCosSeries true ssig2 csig2 (_C1a l) Geodesic.nC1 in
  let AB1 := (1 + _A1m1 l) * (B12 - _B11 l) in
  _b l * ((1 + _A1m1 l) * sig12 + AB1).

(** The local [sig12] on its own. *)
Definition sigma12 (l : GeodesicLine.t) (arcmode : bool) (a12 : float)
    : float :=
  fst (fst (fst (Position_sig12 l arcmode a12))).

(** The locals [sbet2], [cbet2], [salp2], [calp2] of lines 166-184. *)
Definition Position_point2 (l : GeodesicLine.t) (arcmode : bool)
    (a12 : float) : float * float * float * float :=
  let '(sig12, ssig12, csig12, _) := Position_sig12 l arcmode a12 in
  let ssig2 := _ssig1 l * csig12 + _csig1 l * ssig12 in
  let csig2 := _csig1 l * csig12 - _ssig1 l * ssig12 in
  let sbet2 := _calp0 l * ssig2 in
  let cbet2 := hypot (_salp0 l) (_calp0 l * csig2) in
  let '(cbet2, csig2) :=
    if cbet2 =? 0 then (eps2, eps2) else (cbet2, csig2) in
  (sbet2, cbet2, _salp0 l, _calp0 l * csig2).

(** The value line 204 assigns to [lat2]. *)
Definition latitude2 (l : GeodesicLine.t) (arcmode : bool) (a12 : float)
    : float :=
  let '(sbet2, cbet2, _, _) := Position_point2 l arcmode a12 in
  atan2 sbet2 (_f1 l * cbet2) / degree.

(** The value line 208 assigns to [azi2]. *)
Definition azimuth2 (l : GeodesicLine.t) (arcmode : bool) (a12 : float)
    : float :=
  let '(_, _, salp2, calp2) := Position_point2 l arcmode a12 in
  0 - atan2 (- salp2) calp2 / degree.

(** Output bit [bit] is set both in the mask a call requests and in the
    capabilities of the line. *)
Definition requested (outmask : Z) (l : GeodesicLine.t) (bit : Z) : bool :=
  Z.testbit outmask bit && Z.testbit (_caps l) bit.

(** [o'] differs from [o] at most in the locations whose output bit is
    requested. *)
Definition frame (outmask : Z) (l : GeodesicLine.t) (o o' : Outputs) : Prop :=
  (requested outmask l bit_LATITUDE = false -> lat2 o' = lat2 o) /\
  (requested outmask l bit_LONGITUDE = false -> lon2 o' = lon2 o) /\
  (requested outmask l bit_AZIMUTH = false -> azi2 o' = azi2 o) /\
  (requested outmask l bit_DISTANCE = false -> s12 o' = s12 o) /\
  (requested outmask l bit_REDUCEDLENGTH = false -> m12 o' = m12 o) /\
  (requested outmask l bit_GEODESICSCALE = false -> M12 o' = M12 o) /\
  (requested outmask l bit_GEODESICSCALE = false -> M21 o' = M21 o) /\
  (requested outmask l bit_AREA = false -> S12 o' = S12 o).

(** *** The overloads of Position and ArcPosition (lines 251-369)

    Each overload forwards to the general [Position] with a fixed mask,
    passing its own reference parameters and, for every output it does not
    have, one local dummy [real t;].  The dummy is not initialised: its
    content on entry is the argument [t].  The parameters bound to the
    dummy are those whose bit is outside the mask, which [Position] does not
    write (see [frame]), so that they share one location is never
    exercised.  The overloads are numbered by their count of outputs; the
    other arguments are the contents of the caller's locations on entry.
    An [ArcPosition] overload is [void]: the return value is dropped. *)

Definition Position2 (l : GeodesicLine.t) (s12 t : float)
    (lat2 lon2 : float) : float * Outputs :=
  Position l false s12
    (Z.lor LATITUDE LONGITUDE)
    (mkOutputs lat2 lon2 t t t t t t).

Definition Position3 (l : GeodesicLine.t) (s12 t : float)
    (lat2 lon2 azi2 : float) : float * Outputs :=
  Position l false s12
    (Z.lor (Z.lor LATITUDE LONGITUDE) AZIMUTH)
    (mkOutputs lat2 lon2 azi2 t t t t t).

Definition Position4 (l : GeodesicLine.t) (s12 t : float)
    (lat2 lon2 azi2 m12 : float) : float * Outputs :=
  Position l false s12
    (Z.lor (Z.lor (Z.lor LATITUDE LONGITUDE) AZIMUTH) REDUCEDLENGTH)
    (mkOutputs lat2 lon2 azi2 t m12 t t t).

Definition Position5 (l : GeodesicLine.t) (s12 t : float)
    (lat2 lon2 azi2 M12 M21 : float) : float * Outputs :=
  Position l false s12
    (Z.lor (Z.lor (Z.lor LATITUDE LONGITUDE) AZIMUTH) GEODESICSCALE)
    (mkOutputs lat2 lon2 azi2 t t M12 M21 t).

Definition Position6 (l : GeodesicLine.t) (s12 t : float)
    (lat2 lon2 azi2 m12 M12 M21 : float) : float * Outputs :=
  Position l false s12
    (Z.lor (Z.lor (Z.lor (Z.lor LATITUDE LONGITUDE) AZIMUTH) REDUCEDLENGTH)
      GEODESICSCALE)
    (mkOutputs lat2 lon2 azi2 t m12 M12 M21 t).

Definition Position7 (l : GeodesicLine.t) (s12 t : float)
    (lat2 lon2 azi2 m12 M12 M21 S12 : float) : float * Outputs :=
  Position l false s12
    (Z.lor (Z.lor (Z.lor (Z.lor (Z.lor LATITUDE LONGITUDE) AZIMUTH)
                    REDUCEDLENGTH) GEODESICSCALE) AREA)
    (mkOutputs lat2 lon2 azi2 t m12 M12 M21 S12).

Definition ArcPosition2 (l : GeodesicLine.t) (a12 t : float)
    (lat2 lon2 : float) : Outputs :=
  snd (Position l true a12
         (Z.lor LATITUDE LONGITUDE)
         (mkOutputs lat2 lon2 t t t t t t)).

Definition ArcPosition3 (l : GeodesicLine.t) (a12 t : float)
    (lat2 lon2 azi2 : float) : Outputs :=
  snd (Position l true a12
         (Z.lor (Z.lor LATITUDE LONGITUDE) AZIMUTH)
         (mkOutputs lat2 lon2 azi2 t t t t t)).

Definition ArcPosition4 (l : GeodesicLine.t) (a12 t : float)
    (lat2 lon2 azi2 s12 : float) : Outputs :=
  snd (Position l true a12
         (Z.lor (Z.lor (Z.lor LATITUDE LONGITUDE) AZIMUTH) DISTANCE)
         (mkOutputs lat2 lon2 azi2 s12 t t t t)).

Definition ArcPosition5 (l : GeodesicLine.t) (a12 t : float)
    (lat2 lon2 azi2 s12 m12 : float) : Outputs :=
  snd (Position l true a12
         (Z.lor (Z.lor (Z.lor (Z.lor LATITUDE LONGITUDE) AZIMUTH) DISTANCE)
            REDUCEDLENGTH)
         (mkOutputs lat2 lon2 azi2 s12 m12 t t t)).

Definition ArcPosition6 (l : GeodesicLine.t) (a12 t : float)
    (lat2 lon2 azi2 s12 M12 M21 : float) : Outputs :=
  snd (Position l true a12
         (Z.lor (Z.lor (Z.lor (Z.lor LATITUDE LONGITUDE) AZIMUTH) DISTANCE)
            GEODESICSCALE)
         (mkOutputs lat2 lon2 azi2 s12 t M12 M21 t)).

Definition ArcPosition7 (l : GeodesicLine.t) (a12 t : float)
    (lat2 lon2 azi2 s12 m12 M12 M21 : float) : Outputs :=
  snd (Position l true a12
         (Z.lor (Z.lor (Z.lor (Z.lor (Z.lor LATITUDE LONGITUDE) AZIMUTH)
                         DISTANCE) REDUCEDLENGTH) GEODESICSCALE)
         (mkOutputs lat2 lon2 azi2 s12 m12 M12 M21 t)).

Definition ArcPosition8 (l : GeodesicLine.t) (a12 : float)
    (lat2 lon2 azi2 s12 m12 M12 M21 S12 : float) : Outputs :=
  snd (Position l true a12
         (Z.lor (Z.lor (Z.lor (Z.lor (Z.lor (Z.lor LATITUDE LONGITUDE) AZIMUTH)
                           DISTANCE) REDUCEDLENGTH) GEODESICSCALE) AREA)
         (mkOutputs lat2 lon2 azi2 s12 m12 M12 M21 S12)).
End Line.

(** ** Intersect.hpp *)

Module Intersect.
(** An internal version of Point with a little more functionality *)
Record XPoint : Type := mkXPoint { x : float; y : float; c : Z }.

(** [XPoint()]: both displacements are NaN. *)
Definition XPoint_default : XPoint := mkXPoint NaN NaN 0.

(** The L1 distance *)
Definition d1 (x y : float) : float := abs x + abs y.

Definition Dist (p q : XPoint) : float := d1 (x p - x q) (y p - y q).

(** [static int segmentmode(real sx, real sy, const XPoint& p)] *)
Definition segmentmode (sx sy : float) (p : XPoint) : Z :=
  ((if (x p <? 0)%float then -1 else if (x p <=? sx)%float then 0 else 1) * 3
   + (if (y p <? 0)%float then -1 else if (y p <=? sy)%float then 0 else 1))%Z.

(** [typedef std::pair<Math::real, Math::real> Point]: x = first,
    y = second. *)
Definition Point : Type := (float * float)%type.

(** [XPoint(const Point& p)] *)
Definition XPoint_of_Point (p : Point) : XPoint := mkXPoint (fst p) (snd p) 0.



(** [Math::real Dist() const] *)
Definition Dist0 (p : XPoint) : float := d1 (x p) (y p).

(** [Point data() const] *)
Definition data (p : XPoint) : Point := (x p, y p).

(** The public [static Math::real Dist(const Point& p, const Point& p0)];
    the default argument is [Point(0, 0)]. *)
Definition Point_Dist (p p0 : Point) : float :=
  abs (fst p - fst p0) + abs (snd p - snd p0).

Definition Point_origin : Point := (0, 0).

(** The miniumum capabilities for GeodesicLine objects which are passed to
    this class. *)
Definition LineCaps : Z :=
  Z.lor (Z.lor (Z.lor (Z.lor (Z.lor Mask.LATITUDE Mask.LONGITUDE) Mask.AZIMUTH)
                  Mask.REDUCEDLENGTH) Mask.GEODESICSCALE) Mask.DISTANCE_IN.
End Intersect.

(** Comparing XPoints for insertions into sets, but ensure that close
    XPoints test equal.  The member [_slop] is the first argument. *)
Module SetComp.
Import Intersect.

Definition eq (_slop : float) (p q : XPoint) : bool :=
  d1 (x p - x q) (y p - y q) <=? _slop.

(** [bool operator()(const XPoint& p, const XPoint& q) const] *)
Definition before (_slop : float) (p q : XPoint) : bool :=
  negb (eq _slop p q)
  && (if negb (x p =? x q) then x p <? x q else y p <? y q).
End SetComp.

(** For ranking XPoints by closeness.  The members [_x], [_y], the
    coordinates of the reference point, are the first arguments. *)
Module RankPoint.
Import Intersect.

(** [bool operator()(const XPoint& p, const XPoint& q) const] *)
Definition before (_x _y : float) (p q : XPoint) : bool :=
  let dp := d1 (x p - _x) (y p - _y) in
  let dq := d1 (x q - _x) (y q - _y) in
  if negb (dp =? dq) then dp <? dq
  else if negb (x p =? x q) then x p <? x q else y p <? y q.
End RankPoint.

(** ** The documented reading of [segmentmode]

    The three-way code of one coordinate [v] against the segment [0, s], in
    the words of the documentation of [Intersect::Segment]: -1 if [v < 0],
    0 if [0 <= v <= s], +1 if [s < v]. *)

Inductive kcode (s v : float) : Z -> Prop :=
| kcode_before : (v <? 0) = true -> kcode s v (-1)
| kcode_inside : (0 <=? v) = true -> (v <=? s) = true -> kcode s v 0
| kcode_past : (s <? v) = true -> kcode s v 1.

(** ** The inverse solver's failure signal

    Modelled from the spec: the body of [Geodesic::Inverse] (Geodesic.cpp) is
    absent; Geodesic.hpp only declares it, with [maxit = 50] and the sentence
    that on failure to converge the negative of the distances ([s12], [m12]
    and [a12]) and the reverse of the azimuths are returned.  The model keeps
    what the spec fixes: at most [maxit] Newton steps, each either accepting
    the update or not; the integrals evaluated from the last iterate; on
    failure the magnitudes negated and both azimuth directions, held as
    (sin, cos) pairs, reversed.  The Newton step and the integrals are
    parameters. *)

Module InverseModel.
Record Result : Type := mkResult {
  a12 : float; s12 : float; m12 : float;
  salp1 : float; calp1 : float; salp2 : float; calp2 : float
}.

(** Magnitudes negated, azimuths reversed. *)
Definition signal_failure (r : Result) : Result :=
  {| a12 := - a12 r; s12 := - s12 r; m12 := - m12 r;
     salp1 := - salp1 r; calp1 := - calp1 r;
     salp2 := - salp2 r; calp2 := - calp2 r |}.

Section Newton.
Variable State : Type.
(** One Newton step on alpha1: the next iterate, and whether the update
    fell below the tolerance. *)
Variable step : State -> State * bool.
(** Distance, reduced length and azimuths from the last iterate. *)
Variable finish : State -> Result.

(** [for (numit = 0; numit < maxit; ++numit) { step; if (accepted) break; }]:
    returns the last iterate and the value of [numit] on exit, counted
    against the [fuel] steps still allowed. *)
Fixpoint newton (fuel numit : nat) (st : State) : State * nat :=
  match fuel with
  | O => (st, numit)
  | S fuel' =>
      let '(st', accepted) := step st in
      if accepted then (st', numit) else newton fuel' (S numit) st'
  end.

Definition Inverse (st0 : State) : Result :=
  let '(st, numit) := newton Geodesic.maxit 0 st0 in
  let r := finish st in
  if (Geodesic.maxit <=? numit)%nat then signal_failure r else r.

(** No step among the first [n] accepts its update. *)
Fixpoint diverges (n : nat) (st : State) : Prop :=
  match n with
  | O => True
  | S n' => snd (step st) = false /\ diverges n' (fst (step st))
  end.

(** The iterate after [n] steps. *)
Fixpoint iterate (n : nat) (st : State) : State :=
  match n with
  | O => st
  | S n' => iterate n' (fst (step st))
  end.
End Newton.
End InverseModel.

(** ** Concrete externals for the worked examples

    A C library given by the values it takes at the arguments the examples
    reach (and NaN elsewhere), the series on a sphere, where [eps = k2 = 0]
    and every coefficient vanishes, and [Init] as "some capability is set". *)

Module Sample.
Definition pi : float := 0x1.921fb54442d18p+1.
Definition half_pi : float := 0x1.921fb54442d18p+0.

Definition sin (v : float) : float :=
  if v =? 0 then v
  else if v =? half_pi then 1
  else if v =? pi then 0x1.1a62633145c07p-53
  else NaN.

Definition cos (v : float) : float :=
  if v =? 0 then 1
  else if v =? half_pi then 0x1.1a62633145c07p-54
  else if v =? pi then -1
  else NaN.

Definition atan2 (v w : float) : float :=
  if (v =? 0) && (0 <? w) then v
  else if (v =? 0) && (w <? 0) then (if 1 / v <? 0 then - pi else pi)
  else if (0 <? v) && (w =? 0) then half_pi
  else NaN.

Definition floor (v : float) : float :=
  if (0 <=? v) && (v <? 1) then 0
  else if (1 <=? v) && (v <? 2) then 1
  else NaN.

(** Agrees with [Math::hypot] where [v * v + w * w] neither overflows nor
    loses the larger operand. *)
Definition hypot (v w : float) : float := sqrt (v * v + w * w).

Definition degree : float := 0x1.1df46a2529d39p-6.

(** The square root of the least positive normal double. *)
Definition eps2 : float := 0x1p-511.

Definition zeros : list float := [0; 0; 0; 0; 0; 0; 0].

(** Modelled from the spec: [Geodesic::SinCosSeries] is defined in
    Geodesic.cpp, which is absent; the spec asks for Clenshaw summation with
    the recurrence [y1 = 2 cos(2x) y2 - y3 + c_j] from the high index down. *)
Definition SinCosSeries (sinp : bool) (sinx cosx : float) (c : list float)
    (n : Z) : float :=
  let ar := 2 * (cosx - sinx) * (cosx + sinx) in
  let cs := if sinp then firstn (Z.to_nat n) (tl c) else firstn (Z.to_nat n) c in
  let '(y0, y1) :=
    fold_left (fun '(y0, y1) cj => (ar * y0 - y1 + cj, y0)) (rev cs) (0, 0) in
  if sinp then 2 * sinx * cosx * y0 else cosx * (y0 - y1).

Definition ext : Externals :=
  mkExternals sin cos atan2 floor hypot degree eps2 SinCosSeries
    (* A1m1f *) (fun _ => 0)
    (* C1f *) (fun _ _ => zeros)
    (* C1pf *) (fun _ _ => zeros)
    (* A2m1f *) (fun _ => 0)
    (* C2f *) (fun _ _ => zeros)
    (* A3f *) (fun _ _ => 1)
    (* C3f *) (fun _ _ _ => zeros)
    (* C4f *) (fun _ _ _ => zeros)
    (* Init *) (fun l => negb (GeodesicLine._caps l =? 0)%Z).

(** A sphere of the WGS84 equatorial radius. *)
Definition sphere : Geodesic.t :=
  {| Geodesic._a := 6378137; Geodesic._r := 0; Geodesic._f := 0;
     Geodesic._f1 := 1; Geodesic._e2 := 0; Geodesic._ep2 := 0;
     Geodesic._n := 0; Geodesic._b := 6378137;
     Geodesic._c2 := 6378137 * 6378137; Geodesic._etol2 := 0;
     Geodesic._A3x := zeros; Geodesic._C3x := zeros; Geodesic._C4x := zeros |}.


(** Members before construction: nothing meaningful. *)
Definition junk : GeodesicLine.t :=
  GeodesicLine.Build NaN NaN NaN NaN NaN 0 NaN NaN NaN NaN NaN NaN NaN NaN NaN
    NaN NaN NaN NaN [] NaN NaN NaN [] NaN [] NaN [] NaN NaN [] NaN NaN.

(** Members before construction, another way: everything zero. *)
Definition zeroed : GeodesicLine.t :=
  GeodesicLine.Build 0 0 0 0 0 0 0 0 0 0 0 0 0 0 0
    0 0 0 0 [] 0 0 0 [] 0 [] 0 [] 0 0 [] 0 0.

(** The default-constructed line: no capability. *)
Definition uninitialized : GeodesicLine.t := junk.

(** The line through (0, 0) heading north on the sphere, all capabilities. *)
Definition equator_line : GeodesicLine.t :=
  GeodesicLine_ctor ext junk sphere 0 0 0 Mask.ALL.

(** The same line constructed with [caps = 0]. *)
Definition bare_line : GeodesicLine.t :=
  GeodesicLine_ctor ext junk sphere 0 0 0 0.

Definition outs0 : Outputs := mkOutputs 1 2 3 4 5 6 7 8.
End Sample.

(** ** Comparisons and subtraction of binary64 floats

    The primitive operations are specified against [SpecFloat]; the facts
    below are the order and symmetry properties the intersection
    comparators rely on. *)

Section FloatFacts.
Local Open Scope float_scope.

(** Moves a goal about the primitive comparisons to [SFcompare]. *)
Ltac to_SFcompare :=
  rewrite ?FloatAxioms.ltb_spec, ?FloatAxioms.leb_spec, ?FloatAxioms.eqb_spec;
  unfold SFltb, SFleb, SFeqb.

Lemma SFcompare_antisym (a b : spec_float) :
  SFcompare b a = option_map CompOpp (SFcompare a b).
Proof.
  destruct a as [sa|sa| |sa ma ea], b as [sb|sb| |sb mb eb]; simpl;
    try destruct sa; try destruct sb; try reflexivity.
  - rewrite (Z.compare_antisym ea eb).
    destruct (Z.compare ea eb); simpl; try reflexivity.
    rewrite (Pos.compare_cont_antisym ma mb Eq). reflexivity.
  - rewrite (Z.compare_antisym ea eb).
    destruct (Z.compare ea eb); simpl; try reflexivity.
    rewrite (Pos.compare_cont_antisym ma mb Eq). reflexivity.
Qed.

Lemma SFcompare_defined (a b c : spec_float) (k : comparison) :
  SFcompare a b = Some k -> SFcompare c c = Some Eq ->
  exists k', SFcompare a c = Some k'.
Proof.
  destruct a as [sa|sa| |sa ma ea], b as [sb|sb| |sb mb eb],
    c as [sc|sc| |sc mc ec]; simpl; intros H1 H2;
    try discriminate; eexists; reflexivity.
Qed.

Lemma ltb_leb_flip (v w : float) : (v <? w) = true -> (w <=? v) = false.
Proof.
  to_SFcompare.
  rewrite (SFcompare_antisym (Prim2SF v) (Prim2SF w)).
  destruct (SFcompare (Prim2SF v) (Prim2SF w)) as [[| |]|]; simpl;
    intros; congruence.
Qed.

Lemma leb_ltb_flip (v w : float) : (v <=? w) = true -> (w <? v) = false.
Proof.
  to_SFcompare.
  rewrite (SFcompare_antisym (Prim2SF v) (Prim2SF w)).
  destruct (SFcompare (Prim2SF v) (Prim2SF w)) as [[| |]|]; simpl;
    intros; congruence.
Qed.

Lemma SFcompare_refl (a b : spec_float) (k : comparison) :
  SFcompare a b = Some k -> SFcompare a a = Some Eq.
Proof.
  destruct a as [sa|sa| |sa ma ea]; try (destruct sa; reflexivity);
    [destruct b; discriminate|].
  intros _. simpl.
  rewrite Z.compare_refl, Pos.compare_cont_refl. destruct sa; reflexivity.
Qed.

(** A float that is ordered against something is a number (not NaN), and
    so is what it is ordered against. *)
Lemma leb_number (v w : float) :
  (v <=? w) = true -> (v =? v) = true /\ (w =? w) = true.
Proof.
  to_SFcompare.
  destruct (SFcompare (Prim2SF v) (Prim2SF w)) as [k|] eqn:Hk;
    [|discriminate].
  intros _. rewrite (SFcompare_refl _ _ _ Hk).
  rewrite SFcompare_antisym in Hk.
  destruct (SFcompare (Prim2SF w) (Prim2SF v)) as [k'|] eqn:Hk';
    [|discriminate].
  rewrite (SFcompare_refl _ _ _ Hk'). split; reflexivity.
Qed.

Lemma ltb_number (v w : float) :
  (v <? w) = true -> (v =? v) = true /\ (w =? w) = true.
Proof.
  to_SFcompare.
  destruct (SFcompare (Prim2SF v) (Prim2SF w)) as [k|] eqn:Hk;
    [|discriminate].
  intros _. rewrite (SFcompare_refl _ _ _ Hk).
  rewrite SFcompare_antisym in Hk.
  destruct (SFcompare (Prim2SF w) (Prim2SF v)) as [k'|] eqn:Hk';
    [|discriminate].
  rewrite (SFcompare_refl _ _ _ Hk'). split; reflexivity.
Qed.

(** Numbers are totally ordered. *)
Lemma not_ltb_leb (v w : float) :
  (v =? v) = true -> (w =? w) = true -> (v <? w) = false -> (w <=? v) = true.
Proof.
  to_SFcompare. intros Hv Hw Hlt.
  destruct (SFcompare (Prim2SF v) (Prim2SF v)) as [[| |]|] eqn:Hvv;
    try discriminate.
  destruct (SFcompare (Prim2SF w) (Prim2SF w)) as [[| |]|] eqn:Hww;
    try discriminate.
  destruct (SFcompare_defined _ _ _ _ Hvv Hww) as [k Hk].
  rewrite (SFcompare_antisym (Prim2SF v) (Prim2SF w)), Hk.
  rewrite Hk in Hlt. destruct k; simpl; congruence.
Qed.

Lemma not_leb_ltb (v w : float) :
  (v =? v) = true -> (w =? w) = true -> (v <=? w) = false -> (w <? v) = true.
Proof.
  to_SFcompare. intros Hv Hw Hle.
  destruct (SFcompare (Prim2SF v) (Prim2SF v)) as [[| |]|] eqn:Hvv;
    try discriminate.
  destruct (SFcompare (Prim2SF w) (Prim2SF w)) as [[| |]|] eqn:Hww;
    try discriminate.
  destruct (SFcompare_defined _ _ _ _ Hvv Hww) as [k Hk].
  rewrite (SFcompare_antisym (Prim2SF v) (Prim2SF w)), Hk.
  rewrite Hk in Hle. destruct k; simpl; congruence.
Qed.

(** Nothing past a non-negative bound is negative. *)
Lemma past_nonneg_bound (s v : float) :
  (0 <=? s) = true -> (s <? v) = true -> (v <? 0) = false.
Proof.
  to_SFcompare.
  change (Prim2SF 0) with (S754_zero false).
  destruct (Prim2SF s) as [ss|ss| |ss ms es],
    (Prim2SF v) as [sv|sv| |sv mv ev]; simpl;
    try destruct ss; try destruct sv; simpl; congruence.
Qed.

(** The sign given to the rounded result does not affect its magnitude. *)
Lemma SFabs_binary_round (s : bool) (m : positive) (e : Z) :
  SFabs (binary_round prec emax s m e)
  = SFabs (binary_round prec emax (negb s) m e).
Proof.
  unfold binary_round.
  destruct (shl_align m e _) as [mz ez].
  unfold binary_round_aux.
  destruct (shr_fexp prec emax (Z.pos mz) ez loc_Exact) as [mrs' e'].
  destruct (shr_fexp prec emax _ e' loc_Exact) as [mrs'' e''].
  destruct (shr_m mrs''); try reflexivity.
  destruct (Z.leb e'' (emax - prec)); reflexivity.
Qed.

Lemma SFabs_binary_normalize_opp (m e : Z) :
  SFabs (binary_normalize prec emax (- m) e false)
  = SFabs (binary_normalize prec emax m e false).
Proof.
  destruct m as [|p|p]; simpl; try reflexivity.
  - apply (SFabs_binary_round true).
  - apply (SFabs_binary_round false).
Qed.

Lemma SFabs_sub_sym (a b : spec_float) :
  SFabs (SF64sub a b) = SFabs (SF64sub b a).
Proof.
  unfold SF64sub.
  destruct a as [sa|sa| |sa ma ea], b as [sb|sb| |sb mb eb];
    try (destruct sa, sb; reflexivity);
    try (destruct sa; reflexivity); try (destruct sb; reflexivity);
    try reflexivity.
  unfold SFsub. rewrite (Z.min_comm eb ea).
  rewrite <- SFabs_binary_normalize_opp. f_equal. f_equal. lia.
Qed.

Lemma abs_sub_sym (v w : float) : abs (v - w) = abs (w - v).
Proof.
  apply Prim2SF_inj. rewrite !abs_spec, !sub_spec. apply SFabs_sub_sym.
Qed.
End FloatFacts.

(** ** Exact additions and subtractions of 360

    [AngNormalize] shifts by 360 with one floating-point operation.  For
    the arguments it is meant for the operation commits no rounding error:
    the aligned integer difference has fewer than 53 bits, so rounding only
    renormalises it. *)

Section ExactShift.
Local Open Scope Z_scope.

Lemma digits2_pos_size (m : positive) : digits2_pos m = Pos.size m.
Proof. induction m; simpl; congruence. Qed.

Lemma digits2_pos_bounds (m : positive) :
  2 ^ (Z.pos (digits2_pos m) - 1) <= Z.pos m < 2 ^ Z.pos (digits2_pos m).
Proof.
  rewrite digits2_pos_size.
  pose proof (Pos.size_gt m) as Hgt. pose proof (Pos.size_le m) as Hle.
  apply Pos2Z.pos_lt_pos in Hgt. apply Pos2Z.pos_le_pos in Hle.
  rewrite Pos2Z.inj_pow in Hgt, Hle.
  change (Z.pos m~0) with (2 * Z.pos m) in Hle.
  replace (Z.pos (Pos.size m)) with (Z.succ (Z.pos (Pos.size m) - 1)) in Hle at 1
    by lia.
  rewrite Z.pow_succ_r in Hle by lia.
  lia.
Qed.

Lemma iter_xO_value (m p : positive) :
  Z.pos (Pos.iter xO m p) = Z.pos m * 2 ^ Z.pos p.
Proof.
  induction p as [|p IH] using Pos.peano_ind.
  - simpl. lia.
  - rewrite Pos.iter_succ.
    change (Z.pos (Pos.iter xO m p)~0) with (2 * Z.pos (Pos.iter xO m p)).
    rewrite IH, Pos2Z.inj_succ, Z.pow_succ_r by lia. lia.
Qed.

Lemma iter_xO_digits (m p : positive) :
  Z.pos (digits2_pos (Pos.iter xO m p)) = Z.pos (digits2_pos m) + Z.pos p.
Proof.
  induction p as [|p IH] using Pos.peano_ind.
  - simpl. lia.
  - rewrite Pos.iter_succ. simpl digits2_pos. rewrite Pos2Z.inj_succ, IH. lia.
Qed.

(** A mantissa of full width at an exponent in range is left alone. *)
Lemma binary_round_aux_full (s : bool) (m : positive) (e : Z) :
  Z.pos (digits2_pos m) = 53 -> -1074 <= e <= 971 ->
  binary_round_aux prec emax s (Z.pos m) e loc_Exact = S754_finite s m e.
Proof.
  intros Hd He.
  assert (Hs : shr_fexp prec emax (Z.pos m) e loc_Exact
               = ({| shr_m := Z.pos m; shr_r := false; shr_s := false |}, e)).
  { unfold shr_fexp, fexp, Zdigits2. rewrite Hd.
    change (SpecFloat.emin prec emax) with (-1074). change prec with 53.
    replace (Z.max (53 + e - 53) (-1074) - e) with 0 by lia.
    reflexivity. }
  unfold binary_round_aux. rewrite Hs. cbn [shr_m loc_of_shr_record round_nearest_even].
  rewrite Hs. cbn [shr_m].
  change (emax - prec) with 971.
  destruct (Z.leb_spec e 971); [reflexivity|lia].
Qed.

(** Rounding a mantissa of at most 53 bits only shifts it to full width. *)
Lemma binary_round_exact (s : bool) (m : positive) (e : Z) :
  Z.pos (digits2_pos m) <= 53 -> -1021 <= e <= 971 ->
  exists mz : positive,
    binary_round prec emax s m e
    = S754_finite s mz (e - (53 - Z.pos (digits2_pos m)))
    /\ Z.pos mz = Z.pos m * 2 ^ (53 - Z.pos (digits2_pos m))
    /\ Z.pos (digits2_pos mz) = 53.
Proof.
  intros Hd He. unfold binary_round, fexp.
  change (SpecFloat.emin prec emax) with (-1074). change prec with 53.
  replace (Z.max (Z.pos (digits2_pos m) + e - 53) (-1074))
    with (e - (53 - Z.pos (digits2_pos m))) by lia.
  unfold shl_align.
  replace (e - (53 - Z.pos (digits2_pos m)) - e)
    with (- (53 - Z.pos (digits2_pos m))) by lia.
  destruct (53 - Z.pos (digits2_pos m)) as [|d|d] eqn:Hdd; [| |lia].
  - exists m. cbn [Z.opp]. rewrite binary_round_aux_full by lia.
    repeat split; try lia. f_equal. lia.
  - exists (Pos.iter xO m d). cbn [Z.opp].
    rewrite binary_round_aux_full
      by (rewrite ?iter_xO_digits; lia).
    repeat split.
    + apply iter_xO_value.
    + rewrite iter_xO_digits. lia.
Qed.

Lemma Q_shift (z e d : Z) :
  0 <= d -> (inject_Z (z * 2 ^ d) * 2 ^ (e - d) == inject_Z z * 2 ^ e)%Q.
Proof.
  intros Hd.
  rewrite inject_Z_mult, Zpower_Qpower by assumption.
  replace e with ((e - d) + d) at 2 by lia.
  rewrite Qpower_plus by discriminate.
  change (inject_Z 2) with 2%Q. ring.
Qed.

Lemma digits_le_53 (p : positive) :
  Z.pos p < 2 ^ 53 -> Z.pos (digits2_pos p) <= 53.
Proof.
  intros Hp. pose proof (digits2_pos_bounds p) as [Hlo _].
  destruct (Z.le_gt_cases (Z.pos (digits2_pos p)) 53) as [|Hgt]; [assumption|].
  assert (2 ^ 53 <= 2 ^ (Z.pos (digits2_pos p) - 1))
    by (apply Z.pow_le_mono_r; lia).
  lia.
Qed.

Lemma normalize_small (M ez : Z) :
  (ez = -45 \/ ez = -44) ->
  - (180 * 2 ^ (- ez)) <= M < 180 * 2 ^ (- ez) ->
  SFleb (S754_finite true m180 (-45)) (binary_normalize prec emax M ez false)
  = true
  /\ SFltb (binary_normalize prec emax M ez false)
       (S754_finite false m180 (-45)) = true
  /\ (SF2Q (binary_normalize prec emax M ez false) == inject_Z M * 2 ^ ez)%Q.
Proof.
  intros Hez HM.
  assert (Hb : 180 * 2 ^ (- ez) <= 180 * 2 ^ 45 /\ -1021 <= ez <= 971
               /\ (ez = -45 -> 2 ^ (- ez) = 2 ^ 45)
               /\ (ez = -44 -> 2 ^ (- ez) = 2 ^ 44)).
  { destruct Hez as [-> | ->]; repeat split; intros; try reflexivity; try lia;
      try discriminate. }
  destruct Hb as (Hb & Hrange & H45 & H44).
  destruct M as [|p|p].
  - repeat split; reflexivity.
  - assert (Hd : Z.pos (digits2_pos p) <= 53)
      by (apply digits_le_53; change (2 ^ 53) with (256 * 2 ^ 45); lia).
    destruct (binary_round_exact false p ez Hd Hrange) as (mz & Hr & Hmz & Hdz).
    pose proof (digits2_pos_bounds p) as [Hlo _].
    cbn [binary_normalize]. rewrite Hr. clear Hr.
    set (d := 53 - Z.pos (digits2_pos p)) in *.
    split; [reflexivity|]. split.
    + unfold SFltb, SFcompare.
      destruct (Z.compare_spec (ez - d) (-45)) as [He|He|He]; try reflexivity.
      * rewrite Pos.compare_cont_spec, Pos2Z.inj_compare. cbn [Pos.switch_Eq].
        assert (Hlt : Z.pos mz < Z.pos m180).
        { unfold m180. destruct Hez as [-> | ->].
          - replace d with 0 in Hmz by lia. rewrite (H45 eq_refl) in HM.
            change (2 ^ 45) with 35184372088832 in HM. lia.
          - replace d with 1 in Hmz by lia. rewrite (H44 eq_refl) in HM.
            change (2 ^ 44) with 17592186044416 in HM. lia. }
        rewrite (proj2 (Z.compare_lt_iff _ _) Hlt). reflexivity.
      * exfalso. assert (ez = -44 /\ d = 0) as [-> Hd0] by (subst d; lia).
        rewrite (H44 eq_refl) in HM.
        replace (Z.pos (digits2_pos p) - 1) with 52 in Hlo by (subst d; lia).
        change (2 ^ 44) with 17592186044416 in HM.
        change (2 ^ 52) with 4503599627370496 in Hlo. lia.
    + cbn [SF2Q cond_Zopp]. rewrite Hmz. apply Q_shift. subst d. lia.
  - assert (Hd : Z.pos (digits2_pos p) <= 53)
      by (apply digits_le_53; change (2 ^ 53) with (256 * 2 ^ 45); lia).
    destruct (binary_round_exact true p ez Hd Hrange) as (mz & Hr & Hmz & Hdz).
    pose proof (digits2_pos_bounds p) as [Hlo _].
    cbn [binary_normalize]. rewrite Hr. clear Hr.
    set (d := 53 - Z.pos (digits2_pos p)) in *.
    split; [|split; [reflexivity|]].
    + unfold SFleb, SFcompare.
      destruct (Z.compare_spec (-45) (ez - d)) as [He|He|He]; try reflexivity.
      * rewrite Pos.compare_cont_spec, Pos2Z.inj_compare. cbn [Pos.switch_Eq].
        assert (Hle : Z.pos mz <= Z.pos m180).
        { unfold m180. destruct Hez as [-> | ->].
          - replace d with 0 in Hmz by lia. rewrite (H45 eq_refl) in HM.
            change (2 ^ 45) with 35184372088832 in HM. lia.
          - replace d with 1 in Hmz by lia. rewrite (H44 eq_refl) in HM.
            change (2 ^ 44) with 17592186044416 in HM. lia. }
        destruct (Z.compare_spec (Z.pos m180) (Z.pos mz)); try reflexivity.
        lia.
      * exfalso. assert (ez = -44 /\ d = 0) as [-> Hd0] by (subst d; lia).
        rewrite (H44 eq_refl) in HM.
        replace (Z.pos (digits2_pos p) - 1) with 52 in Hlo by (subst d; lia).
        change (2 ^ 44) with 17592186044416 in HM.
        change (2 ^ 52) with 4503599627370496 in Hlo. lia.
    + cbn [SF2Q cond_Zopp].
      change (Z.neg p) with (- Z.pos p). rewrite !inject_Z_opp.
      rewrite Hmz.
      setoid_replace (- inject_Z (Z.pos p * 2 ^ d) * 2 ^ (ez - d))%Q
        with (- (inject_Z (Z.pos p * 2 ^ d) * 2 ^ (ez - d)))%Q by ring.
      rewrite Q_shift by (subst d; lia). ring.
Qed.

Lemma Prim2SF_180 : Prim2SF 180 = S754_finite false m180 (-45).
Proof. reflexivity. Qed.
Lemma Prim2SF_m180 : Prim2SF (-180) = S754_finite true m180 (-45).
Proof. reflexivity. Qed.
Lemma Prim2SF_360 : Prim2SF 360 = S754_finite false m180 (-44).
Proof. reflexivity. Qed.
Lemma Prim2SF_540 : Prim2SF 540 = S754_finite false m540 (-43).
Proof. reflexivity. Qed.
Lemma Prim2SF_m540 : Prim2SF (-540) = S754_finite true m540 (-43).
Proof. reflexivity. Qed.

(** A valid mantissa at an exponent above the subnormal range has 53 bits. *)
Lemma valid_normal (s : bool) (m : positive) (e : Z) :
  valid_binary (S754_finite s m e) = true -> -1074 < e ->
  2 ^ 52 <= Z.pos m < 2 ^ 53.
Proof.
  unfold SpecFloat.valid_binary, bounded, canonical_mantissa, fexp.
  change (SpecFloat.emin prec emax) with (-1074). change prec with 53.
  intros Hv He. apply andb_true_iff in Hv. destruct Hv as [Hc _].
  apply Z.eqb_eq in Hc.
  assert (Hd : Z.pos (digits2_pos m) = 53) by lia.
  pose proof (digits2_pos_bounds m) as Hb. rewrite Hd in Hb.
  exact Hb.
Qed.

(** The mantissa order of two floats at the same exponent. *)
Lemma compare_cont_Z (p q : positive) :
  Pos.compare_cont Eq p q = (Z.pos p ?= Z.pos q).
Proof.
  rewrite Pos.compare_cont_spec, Pos2Z.inj_compare.
  destruct (Z.pos p ?= Z.pos q); reflexivity.
Qed.

Lemma in_180_540 (x : float) :
  (180 <=? x)%float = true -> (x <? 540)%float = true ->
  exists m : positive, exists e : Z,
    Prim2SF x = S754_finite false m e
    /\ 2 ^ 52 <= Z.pos m < 2 ^ 53
    /\ ((e = -45 /\ Z.pos m180 <= Z.pos m)
        \/ e = -44
        \/ (e = -43 /\ Z.pos m < Z.pos m540)).
Proof.
  rewrite FloatAxioms.leb_spec, FloatAxioms.ltb_spec, Prim2SF_180, Prim2SF_540.
  pose proof (Prim2SF_valid x) as Hv. revert Hv.
  destruct (Prim2SF x) as [s|s| |s m e]; try (destruct s; discriminate);
    try discriminate.
  destruct s; [discriminate|].
  unfold SFleb, SFltb, SFcompare. rewrite !compare_cont_Z.
  intros Hv H1 H2. exists m, e.
  destruct (Z.compare_spec (-45) e) as [He1|He1|He1];
    destruct (Z.compare_spec e (-43)) as [He2|He2|He2];
    try discriminate; try lia;
    (split; [reflexivity|]);
    (split; [apply (valid_normal false m e Hv); lia|]).
  - left. split; [lia|].
    destruct (Z.compare_spec (Z.pos m180) (Z.pos m)); try discriminate; lia.
  - right. right. split; [lia|].
    destruct (Z.compare_spec (Z.pos m) (Z.pos m540)); try discriminate; lia.
  - right. left. lia.
Qed.

Lemma in_m540_m180 (x : float) :
  (-540 <=? x)%float = true -> (x <? -180)%float = true ->
  exists m : positive, exists e : Z,
    Prim2SF x = S754_finite true m e
    /\ 2 ^ 52 <= Z.pos m < 2 ^ 53
    /\ ((e = -45 /\ Z.pos m180 < Z.pos m)
        \/ e = -44
        \/ (e = -43 /\ Z.pos m <= Z.pos m540)).
Proof.
  rewrite FloatAxioms.leb_spec, FloatAxioms.ltb_spec, Prim2SF_m180, Prim2SF_m540.
  pose proof (Prim2SF_valid x) as Hv. revert Hv.
  destruct (Prim2SF x) as [s|s| |s m e]; try (destruct s; discriminate);
    try discriminate.
  destruct s; [|discriminate].
  unfold SFleb, SFltb, SFcompare. rewrite !compare_cont_Z.
  intros Hv H1 H2. exists m, e.
  destruct (Z.compare_spec (-43) e) as [He1|He1|He1];
    destruct (Z.compare_spec e (-45)) as [He2|He2|He2];
    try discriminate; try lia;
    (split; [reflexivity|]);
    (split; [apply (valid_normal true m e Hv); lia|]).
  - right. right. split; [lia|].
    destruct (Z.compare_spec (Z.pos m540) (Z.pos m)); try discriminate; lia.
  - left. split; [lia|].
    destruct (Z.compare_spec (Z.pos m) (Z.pos m180)); try discriminate; lia.
  - right. left. lia.
Qed.

Lemma value_finite (x : float) (s : bool) (m : positive) (e : Z) :
  Prim2SF x = S754_finite s m e ->
  value x = (inject_Z (cond_Zopp s (Z.pos m)) * 2 ^ e)%Q.
Proof. intros H. unfold value. rewrite H. reflexivity. Qed.

(** The powers of two at the three exponents of [180, 540). *)
Ltac powers_of_two :=
  change (2 ^ (- (-45))) with 35184372088832;
  change (2 ^ (- (-44))) with 17592186044416;
  change (2 ^ (-45))%Q with (1 # 35184372088832)%Q;
  change (2 ^ (-44))%Q with (1 # 17592186044416)%Q;
  change (2 ^ (-43))%Q with (1 # 8796093022208)%Q.

(** Closes one exponent case of a shift by 360: the operation has been
    brought to [binary_normalize M ez false]; [pick] selects [ez] among the
    exponents of [normalize_small]. *)
Ltac exact_shift M ez pick :=
  let Ha := fresh "Ha" in
  let Hb := fresh "Hb" in
  let Hc := fresh "Hc" in
  destruct (normalize_small M ez) as (Ha & Hb & Hc);
  [ pick; reflexivity
  | powers_of_two; unfold m180, m540 in *; lia
  | split; [exact Ha|]; split; [exact Hb|]; rewrite Hc;
    cbn [cond_Zopp]; unfold Z.sub;
    rewrite ?inject_Z_plus, ?inject_Z_opp, ?inject_Z_mult;
    powers_of_two; unfold m180;
    change (inject_Z 2) with 2%Q;
    change (inject_Z 6333186975989760) with 6333186975989760%Q; ring ].

(** [x - 360] for [x] in [180, 540): the subtraction is exact and lands in
    [-180, 180). *)
Lemma sub_360_exact (x : float) :
  (180 <=? x)%float = true -> (x <? 540)%float = true ->
  (-180 <=? x - 360)%float = true /\ (x - 360 <? 180)%float = true
  /\ (value (x - 360) == value x - 360)%Q.
Proof.
  intros H1 H2.
  destruct (in_180_540 x H1 H2) as (m & e & Hx & Hm & He).
  rewrite FloatAxioms.leb_spec, FloatAxioms.ltb_spec, Prim2SF_m180, Prim2SF_180.
  rewrite (value_finite x _ _ _ Hx). unfold value.
  rewrite sub_spec, Hx, Prim2SF_360. unfold SF64sub.
  change (2 ^ 52) with 4503599627370496 in Hm.
  change (2 ^ 53) with 9007199254740992 in Hm.
  destruct He as [[-> Hlo]|[->|[-> Hhi]]].
  - change (SFsub prec emax (S754_finite false m (-45))
              (S754_finite false m180 (-44)))
      with (binary_normalize prec emax (Z.pos m - 2 * Z.pos m180) (-45) false).
    exact_shift (Z.pos m - 2 * Z.pos m180) (-45) ltac:(left).
  - change (SFsub prec emax (S754_finite false m (-44))
              (S754_finite false m180 (-44)))
      with (binary_normalize prec emax (Z.pos m - Z.pos m180) (-44) false).
    exact_shift (Z.pos m - Z.pos m180) (-44) ltac:(right).
  - change (SFsub prec emax (S754_finite false m (-43))
              (S754_finite false m180 (-44)))
      with (binary_normalize prec emax (2 * Z.pos m - Z.pos m180) (-44) false).
    exact_shift (2 * Z.pos m - Z.pos m180) (-44) ltac:(right).
Qed.

(** [x + 360] for [x] in [-540, -180): the addition is exact and lands in
    [-180, 180). *)
Lemma add_360_exact (x : float) :
  (-540 <=? x)%float = true -> (x <? -180)%float = true ->
  (-180 <=? x + 360)%float = true /\ (x + 360 <? 180)%float = true
  /\ (value (x + 360) == value x + 360)%Q.
Proof.
  intros H1 H2.
  destruct (in_m540_m180 x H1 H2) as (m & e & Hx & Hm & He).
  rewrite FloatAxioms.leb_spec, FloatAxioms.ltb_spec, Prim2SF_m180, Prim2SF_180.
  rewrite (value_finite x _ _ _ Hx). unfold value.
  rewrite add_spec, Hx, Prim2SF_360. unfold SF64add.
  change (2 ^ 52) with 4503599627370496 in Hm.
  change (2 ^ 53) with 9007199254740992 in Hm.
  destruct He as [[-> Hlo]|[->|[-> Hhi]]].
  - change (SFadd prec emax (S754_finite true m (-45))
              (S754_finite false m180 (-44)))
      with (binary_normalize prec emax (- Z.pos m + 2 * Z.pos m180) (-45)
              false).
    exact_shift (- Z.pos m + 2 * Z.pos m180) (-45) ltac:(left).
  - change (SFadd prec emax (S754_finite true m (-44))
              (S754_finite false m180 (-44)))
      with (binary_normalize prec emax (- Z.pos m + Z.pos m180) (-44) false).
    exact_shift (- Z.pos m + Z.pos m180) (-44) ltac:(right).
  - change (SFadd prec emax (S754_finite true m (-43))
              (S754_finite false m180 (-44)))
      with (binary_normalize prec emax (- (2 * Z.pos m) + Z.pos m180) (-44)
              false).
    exact_shift (- (2 * Z.pos m) + Z.pos m180) (-44) ltac:(right).
Qed.

(** C5: for every [x] in [-540, 540), [AngNormalize x] lies in [-180, 180)
    and its value differs from that of [x] by -360, 0 or +360 exactly. *)
Theorem AngNormalize_range (x : float) :
  (-540 <=? x)%float = true -> (x <? 540)%float = true ->
  (-180 <=? Geodesic.AngNormalize x)%float = true
  /\ (Geodesic.AngNormalize x <? 180)%float = true
  /\ (value (Geodesic.AngNormalize x) == value x - 360
      \/ value (Geodesic.AngNormalize x) == value x
      \/ value (Geodesic.AngNormalize x) == value x + 360)%Q.
Proof.
  intros Hlo Hhi. unfold Geodesic.AngNormalize.
  destruct (180 <=? x)%float eqn:H180.
  - destruct (sub_360_exact x H180 Hhi) as (Ha & Hb & Hc).
    repeat split; try assumption. left. exact Hc.
  - destruct (x <? -180)%float eqn:Hm180.
    + destruct (add_360_exact x Hlo Hm180) as (Ha & Hb & Hc).
      repeat split; try assumption. right. right. exact Hc.
    + destruct (leb_number _ _ Hlo) as [_ Hx].
      split; [|split].
      * apply not_ltb_leb; [assumption|reflexivity|assumption].
      * apply not_leb_ltb; [reflexivity|assumption|assumption].
      * right. left. reflexivity.
Qed.

Lemma AngNormalize_range_witness :
  ((-540 <=? 270)%float = true /\ (270 <? 540)%float = true)
  /\ (-180 <=? Geodesic.AngNormalize 270)%float = true
  /\ (Geodesic.AngNormalize 270 <? 180)%float = true
  /\ Geodesic.AngNormalize 270 = (-90)%float.
Proof.
  split; [split; reflexivity|].
  destruct (AngNormalize_range 270 eq_refl eq_refl) as (Ha & Hb & _).
  split; [exact Ha|]. split; [exact Hb|]. reflexivity.
Defined.

(** The ends of the range: -540 and 180 are sent to -180, the float just
    below 540 stays below 180; at 540 itself, outside the range, the result
    180 is outside [-180, 180). *)
Example AngNormalize_ends :
  Geodesic.AngNormalize (-540) = (-180)%float
  /\ Geodesic.AngNormalize 180 = (-180)%float
  /\ (Geodesic.AngNormalize (next_down 540) <? 180)%float = true
  /\ Geodesic.AngNormalize 540 = 180%float.
Proof. repeat split; vm_compute; reflexivity. Qed.
End ExactShift.

(** * Theorems *)

(** ** Mask arithmetic *)

Section MaskFacts.
Import Mask.
Local Open Scope Z_scope.

Lemma nonzero_land_bit (m i : Z) :
  0 <= i -> nonzero (Z.land m (Z.shiftl 1 i)) = Z.testbit m i.
Proof.
  intros Hi. unfold nonzero. rewrite Z.shiftl_1_l.
  destruct (Z.testbit m i) eqn:Hb.
  - apply negb_true_iff, Z.eqb_neq. intros H0.
    assert (Hc : Z.testbit (Z.land m (2 ^ i)) i = true).
    { rewrite Z.land_spec, Hb, Z.pow2_bits_true by assumption. reflexivity. }
    rewrite H0, Z.bits_0 in Hc. discriminate.
  - apply negb_false_iff, Z.eqb_eq. apply Z.bits_inj'. intros n Hn.
    rewrite Z.land_spec, Z.bits_0, Z.pow2_bits_eqb by assumption.
    destruct (Z.eqb_spec i n) as [->|];
      [rewrite Hb|rewrite andb_false_r]; reflexivity.
Qed.

Lemma nonzero_lor (a b : Z) : nonzero (Z.lor a b) = nonzero a || nonzero b.
Proof.
  unfold nonzero. rewrite <- negb_andb. f_equal.
  destruct (Z.eqb_spec a 0) as [->|Ha]; simpl.
  - reflexivity.
  - apply Z.eqb_neq. intros H. apply Z.lor_eq_0_iff in H. tauto.
Qed.

(** The mask [Position] works with, [outmask & (_caps & OUT_ALL)], tested
    against [k], only sees the part of [k] inside [OUT_ALL]. *)
Lemma outmask_land (outmask caps k : Z) :
  Z.land (Z.land outmask (Z.land caps OUT_ALL)) k
  = Z.land (Z.land outmask caps) (Z.land OUT_ALL k).
Proof. rewrite !Z.land_assoc. reflexivity. Qed.

Lemma requested_bit (outmask : Z) (l : GeodesicLine.t) (i : Z) :
  0 <= i ->
  nonzero (Z.land (Z.land outmask (GeodesicLine._caps l)) (Z.shiftl 1 i))
  = requested outmask l i.
Proof. intros. rewrite nonzero_land_bit by lia. apply Z.land_spec. Qed.

Ltac out_bits K :=
  rewrite outmask_land;
  match goal with
  | |- context [Z.land OUT_ALL ?m] => change (Z.land OUT_ALL m) with K
  end;
  rewrite ?Z.land_lor_distr_r, ?nonzero_lor, ?requested_bit by lia;
  reflexivity.

(** The guard's [_caps & DISTANCE_IN & OUT_ALL] is the DISTANCE_IN output
    bit of the capabilities. *)
Lemma test_DISTANCE_IN (caps : Z) :
  nonzero (Z.land (Z.land caps DISTANCE_IN) OUT_ALL)
  = Z.testbit caps bit_DISTANCE_IN.
Proof.
  rewrite <- Z.land_assoc.
  change (Z.land DISTANCE_IN OUT_ALL) with (Z.shiftl 1 11).
  apply (nonzero_land_bit _ 11). lia.
Qed.

Variables (outmask : Z) (l : GeodesicLine.t).
Let sel := Z.land outmask (Z.land (GeodesicLine._caps l) OUT_ALL).

Lemma test_LATITUDE :
  nonzero (Z.land sel LATITUDE) = requested outmask l bit_LATITUDE.
Proof. subst sel. out_bits (Z.shiftl 1 7). Qed.

Lemma test_LONGITUDE :
  nonzero (Z.land sel LONGITUDE) = requested outmask l bit_LONGITUDE.
Proof. subst sel. out_bits (Z.shiftl 1 8). Qed.

Lemma test_AZIMUTH :
  nonzero (Z.land sel AZIMUTH) = requested outmask l bit_AZIMUTH.
Proof. subst sel. out_bits (Z.shiftl 1 9). Qed.

Lemma test_DISTANCE :
  nonzero (Z.land sel DISTANCE) = requested outmask l bit_DISTANCE.
Proof. subst sel. out_bits (Z.shiftl 1 10). Qed.

Lemma test_REDUCEDLENGTH :
  nonzero (Z.land sel REDUCEDLENGTH) = requested outmask l bit_REDUCEDLENGTH.
Proof. subst sel. out_bits (Z.shiftl 1 12). Qed.

Lemma test_GEODESICSCALE :
  nonzero (Z.land sel GEODESICSCALE) = requested outmask l bit_GEODESICSCALE.
Proof. subst sel. out_bits (Z.shiftl 1 13). Qed.

Lemma test_AREA :
  nonzero (Z.land sel AREA) = requested outmask l bit_AREA.
Proof. subst sel. out_bits (Z.shiftl 1 14). Qed.

Lemma test_lengths :
  nonzero (Z.land sel (Z.lor REDUCEDLENGTH GEODESICSCALE))
  = requested outmask l bit_REDUCEDLENGTH
    || requested outmask l bit_GEODESICSCALE.
Proof. subst sel. out_bits (Z.lor (Z.shiftl 1 12) (Z.shiftl 1 13)). Qed.

Lemma test_series1 :
  nonzero (Z.land sel (Z.lor (Z.lor DISTANCE REDUCEDLENGTH) GEODESICSCALE))
  = requested outmask l bit_DISTANCE
    || requested outmask l bit_REDUCEDLENGTH
    || requested outmask l bit_GEODESICSCALE.
Proof.
  subst sel.
  out_bits (Z.lor (Z.lor (Z.shiftl 1 10) (Z.shiftl 1 12)) (Z.shiftl 1 13)).
Qed.
End MaskFacts.

(** ** GeodesicLine::Position *)

Section PositionFacts.
Variable E : Externals.
Import Mask GeodesicLine.

(** Rewrites every mask test of [Position] into [requested] bits. *)
Ltac mask_tests :=
  rewrite ?test_LATITUDE, ?test_LONGITUDE, ?test_AZIMUTH, ?test_DISTANCE,
    ?test_REDUCEDLENGTH, ?test_GEODESICSCALE, ?test_AREA, ?test_lengths,
    ?test_series1.

(** One step through the body of [Position]: the outermost local is named
    and handed to [tac]; a tuple of locals chosen by a test is split. *)
Ltac name_local tac :=
  match goal with
  | |- context G [let x := ?v in @?b x] =>
      let y := fresh x in
      pose (y := v);
      let g := context G [b y] in
      change g; cbv beta; tac y
  | |- context [match ?p with pair _ _ => _ end] =>
      lazymatch p with
      | pair _ _ => cbv beta iota
      | if ?c then _ else _ => destruct c
      | _ => destruct p
      end
  end.

Ltac open_Position := cbv beta delta [Position].

Ltac split_tests :=
  repeat match goal with
         | |- context [if ?c then _ else _] => destruct c eqn:?
         end.

Lemma Position_early_exit l arcmode a12 outmask o :
  Position_possible E l arcmode = false ->
  Position E l arcmode a12 outmask o = (NaN, o).
Proof. intros H. open_Position. rewrite H. reflexivity. Qed.

Lemma Position_return l arcmode a12 outmask o :
  Position_possible E l arcmode = true ->
  fst (Position E l arcmode a12 outmask o)
  = if arcmode then a12
    else sigma12 E l arcmode a12 / degree E.
Proof.
  intros H. open_Position. cbv beta delta [sigma12].
  rewrite H. cbv beta iota delta [negb].
  repeat name_local ltac:(fun y => clearbody y).
  all: reflexivity.
Qed.

Lemma frame_refl outmask l o : frame outmask l o o.
Proof. unfold frame. repeat split; reflexivity. Qed.

Ltac frame_step :=
  unfold frame in *;
  match goal with
  | Hf : _ /\ _ |- _ => destruct Hf as (?&?&?&?&?&?&?&?)
  end;
  cbv beta iota zeta; split_tests;
  cbv beta iota zeta
    delta [lat2 lon2 azi2 s12 m12 M12 M21 S12 set_lat2 set_lon2 set_azi2
           set_s12 set_m12 set_M12 set_M21 set_S12];
  repeat split; intros; try discriminate; auto.

Lemma Position_frame_possible l arcmode a12 outmask o :
  frame outmask l o (snd (Position E l arcmode a12 outmask o)).
Proof.
  open_Position.
  destruct (Position_possible E l arcmode); cbv beta iota delta [negb];
    [|apply frame_refl].
  pose proof (frame_refl outmask l o) as Hf.
  repeat name_local ltac:(fun y =>
    lazymatch type of y with
    | Z => subst y; mask_tests
    | Outputs =>
        assert (frame outmask l o y) by (subst y; frame_step);
        clearbody y
    | _ => clearbody y
    end).
  all: assumption.
Qed.

Ltac out_fields :=
  cbv beta iota zeta
    delta [lat2 lon2 azi2 s12 m12 M12 M21 S12 set_lat2 set_lon2 set_azi2
           set_s12 set_m12 set_M12 set_M21 set_S12].

(** Steps through [Position] keeping the float locals and recording what
    the location read by [proj] holds after each write. *)
Ltac track proj Hr :=
  repeat name_local ltac:(fun y =>
    lazymatch type of y with
    | Z => subst y; mask_tests; rewrite ?Hr; cbv beta iota delta [orb]
    | Outputs =>
        let Hy := fresh "Hy" in
        eassert (Hy : proj y = _)
          by (subst y; cbv beta iota zeta; split_tests; out_fields;
              first [eassumption | reflexivity]);
        clearbody y
    | _ => subst y
    end).

Lemma Position_lat2 l arcmode a12 outmask o :
  Position_possible E l arcmode = true ->
  requested outmask l bit_LATITUDE = true ->
  lat2 (snd (Position E l arcmode a12 outmask o)) = latitude2 E l arcmode a12.
Proof.
  intros H Hr. open_Position. cbv beta delta [latitude2 Position_point2].
  rewrite H. cbv beta iota delta [negb].
  track lat2 Hr.
  all: cbv beta iota delta [snd]; eassumption.
Qed.

Lemma Position_azi2 l arcmode a12 outmask o :
  Position_possible E l arcmode = true ->
  requested outmask l bit_AZIMUTH = true ->
  azi2 (snd (Position E l arcmode a12 outmask o)) = azimuth2 E l arcmode a12.
Proof.
  intros H Hr. open_Position. cbv beta delta [azimuth2 Position_point2].
  rewrite H. cbv beta iota delta [negb].
  track azi2 Hr.
  all: cbv beta iota delta [snd]; eassumption.
Qed.

Lemma Position_s12_arc l a12 outmask o :
  Position_possible E l true = true ->
  requested outmask l bit_DISTANCE = true ->
  s12 (snd (Position E l true a12 outmask o)) = arc_distance E l a12.
Proof.
  intros H Hr. open_Position. cbv beta delta [arc_distance].
  rewrite H. cbv beta iota delta [negb].
  track s12 Hr.
  all: cbv beta iota delta [snd]; eassumption.
Qed.
End PositionFacts.

(** ** The constructor *)

Section CtorFacts.
Variable E : Externals.
Import Mask GeodesicLine.

Lemma ctor_caps u g lat1 lon1 azi1 caps :
  _caps (GeodesicLine_ctor E u g lat1 lon1 azi1 caps)
  = Z.lor (Z.lor caps LATITUDE) AZIMUTH.
Proof. reflexivity. Qed.


Lemma ctor_bits u g lat1 lon1 azi1 caps :
  Z.testbit (_caps (GeodesicLine_ctor E u g lat1 lon1 azi1 caps)) bit_LATITUDE
  = true
  /\ Z.testbit (_caps (GeodesicLine_ctor E u g lat1 lon1 azi1 caps)) bit_AZIMUTH
     = true.
Proof.
  rewrite ctor_caps, !Z.lor_spec.
  split; [apply orb_true_iff; left|]; apply orb_true_iff; right; reflexivity.
Qed.

(** The constructor adds no DISTANCE_IN: a line has the bit only if [caps]
    had it. *)
Lemma ctor_DISTANCE_IN u g lat1 lon1 azi1 caps :
  Z.testbit (_caps (GeodesicLine_ctor E u g lat1 lon1 azi1 caps))
    bit_DISTANCE_IN
  = Z.testbit caps bit_DISTANCE_IN.
Proof.
  rewrite ctor_caps, !Z.lor_spec.
  change (Z.testbit LATITUDE bit_DISTANCE_IN) with false.
  change (Z.testbit AZIMUTH bit_DISTANCE_IN) with false.
  rewrite !orb_false_r. reflexivity.
Qed.
End CtorFacts.

(** ** Claims about GeodesicLine *)

Section LineClaims.
Import Mask GeodesicLine.
Local Open Scope float_scope.

(** C1, as amended: whenever [Position] does not take the early exit, its
    return value is the arc length in degrees in both modes: [sig12]
    converted to degrees when [a12] was a distance, and the input [a12]
    itself in arc mode.  The distance in metres of an arc-mode call is what
    the [s12] output receives when DISTANCE is requested and available. *)
Theorem Position_returns_arc_length (E : Externals) (l : GeodesicLine.t)
    (arcmode : bool) (a12 : float) (outmask : Z) (o : Outputs) :
  Position_possible E l arcmode = true ->
  fst (Position E l arcmode a12 outmask o)
  = (if arcmode then a12 else sigma12 E l false a12 / degree E)
  /\ (arcmode = true -> requested outmask l bit_DISTANCE = true ->
      s12 (snd (Position E l arcmode a12 outmask o)) = arc_distance E l a12).
Proof.
  intros H. split.
  - rewrite Position_return by assumption. destruct arcmode; reflexivity.
  - intros -> Hd. apply Position_s12_arc; assumption.
Qed.

Lemma Position_returns_arc_length_witness :
  Position_possible Sample.ext Sample.equator_line true = true
  /\ fst (Position Sample.ext Sample.equator_line true 180 ALL Sample.outs0)
     = 180.
Proof.
  split; [reflexivity|].
  apply (Position_returns_arc_length Sample.ext Sample.equator_line true 180
           ALL Sample.outs0).
  reflexivity.
Defined.

(** C1 as stated fails: half way round the sphere in arc mode the return
    value is the arc length 180, while the distance, delivered in [s12], is
    pi times the radius. *)
Lemma Position_arc_return_is_not_s12 :
  fst (Position Sample.ext Sample.equator_line true 180 ALL Sample.outs0) = 180
  /\ s12 (snd (Position Sample.ext Sample.equator_line true 180 ALL
                 Sample.outs0))
     = 6378137 * Sample.pi
  /\ arc_distance Sample.ext Sample.equator_line 180 = 6378137 * Sample.pi
  /\ (fst (Position Sample.ext Sample.equator_line true 180 ALL Sample.outs0)
      =? arc_distance Sample.ext Sample.equator_line 180) = false.
Proof. repeat split; vm_compute; reflexivity. Qed.

(** C3: a [Position] call on an uninitialized line, and a call that takes a
    distance on a line whose capabilities lack the DISTANCE_IN bit, returns
    NaN as a value (no exception) and writes no output. *)
Theorem Position_impossible_returns_NaN (E : Externals) (l : GeodesicLine.t)
    (arcmode : bool) (a12 : float) (outmask : Z) (o : Outputs) :
  Init E l = false
  \/ (arcmode = false /\ Z.testbit (_caps l) bit_DISTANCE_IN = false) ->
  Position E l arcmode a12 outmask o = (NaN, o).
Proof.
  intros H. apply Position_early_exit. unfold Position_possible.
  destruct H as [H|[-> H]].
  - rewrite H. reflexivity.
  - rewrite test_DISTANCE_IN, H. apply andb_false_r.
Qed.

Lemma Position_impossible_returns_NaN_witness :
  Z.testbit (_caps Sample.bare_line) bit_DISTANCE_IN = false
  /\ Position Sample.ext Sample.bare_line false 1000 ALL Sample.outs0
     = (NaN, Sample.outs0)
  /\ Init Sample.ext Sample.uninitialized = false
  /\ Position Sample.ext Sample.uninitialized true 90 ALL Sample.outs0
     = (NaN, Sample.outs0).
Proof.
  split; [reflexivity|]. split; [|split; [reflexivity|]].
  - apply (Position_impossible_returns_NaN Sample.ext Sample.bare_line false
             1000 ALL Sample.outs0).
    right. split; reflexivity.
  - apply (Position_impossible_returns_NaN Sample.ext Sample.uninitialized
             true 90 ALL Sample.outs0).
    left. reflexivity.
Defined.

(** C9: [Position] leaves every output location unchanged unless its bit
    is set both in the requested [outmask] and in the capabilities of the
    line; on the early exit nothing at all is written. *)
Theorem Position_writes_only_requested (E : Externals) (l : GeodesicLine.t)
    (arcmode : bool) (a12 : float) (outmask : Z) (o : Outputs) :
  let o' := snd (Position E l arcmode a12 outmask o) in
  (requested outmask l bit_LATITUDE = false -> lat2 o' = lat2 o)
  /\ (requested outmask l bit_LONGITUDE = false -> lon2 o' = lon2 o)
  /\ (requested outmask l bit_AZIMUTH = false -> azi2 o' = azi2 o)
  /\ (requested outmask l bit_DISTANCE = false -> s12 o' = s12 o)
  /\ (requested outmask l bit_REDUCEDLENGTH = false -> m12 o' = m12 o)
  /\ (requested outmask l bit_GEODESICSCALE = false -> M12 o' = M12 o)
  /\ (requested outmask l bit_GEODESICSCALE = false -> M21 o' = M21 o)
  /\ (requested outmask l bit_AREA = false -> S12 o' = S12 o)
  /\ (Position_possible E l arcmode = false -> o' = o).
Proof.
  intros o'. subst o'.
  pose proof (Position_frame_possible E l arcmode a12 outmask o) as Hf.
  unfold frame in Hf. destruct Hf as (H1&H2&H3&H4&H5&H6&H7&H8).
  repeat (split; [assumption|]).
  intros H. rewrite Position_early_exit by assumption. reflexivity.
Qed.

(** C10: whatever [caps] is passed, the constructor stores
    [caps | LATITUDE | AZIMUTH], which is never the empty set; hence on every
    constructed line a [Position] call that is not refused writes [lat2] and
    [azi2] whenever the call asks for them, and an arc-mode call is refused
    only if [Init] fails. *)
Theorem ctor_always_allows_latitude_azimuth (E : Externals)
    (u : GeodesicLine.t) (g : Geodesic.t) (lat1 lon1 azi1 : float) (caps : Z) :
  let l := GeodesicLine_ctor E u g lat1 lon1 azi1 caps in
  _caps l = Z.lor (Z.lor caps LATITUDE) AZIMUTH
  /\ _caps l <> 0%Z
  /\ Position_possible E l true = Init E l
  /\ (forall (arcmode : bool) (a12 : float) (outmask : Z) (o : Outputs),
         Position_possible E l arcmode = true ->
         (Z.testbit outmask bit_LATITUDE = true ->
          lat2 (snd (Position E l arcmode a12 outmask o))
          = latitude2 E l arcmode a12)
         /\ (Z.testbit outmask bit_AZIMUTH = true ->
             azi2 (snd (Position E l arcmode a12 outmask o))
             = azimuth2 E l arcmode a12)).
Proof.
  intros l.
  destruct (ctor_bits E u g lat1 lon1 azi1 caps) as [Hlat Hazi].
  fold l in Hlat, Hazi.
  split; [reflexivity|]. split; [|split].
  - intros H0. rewrite H0, Z.bits_0 in Hlat. discriminate.
  - unfold Position_possible. apply andb_true_r.
  - intros arcmode a12 outmask o Hp. split; intros Hb.
    + apply Position_lat2; [assumption|].
      unfold requested. rewrite Hb, Hlat. reflexivity.
    + apply Position_azi2; [assumption|].
      unfold requested. rewrite Hb, Hazi. reflexivity.
Qed.

(** *** Worked examples on the sphere *)

(** Half way round from (0, 0) heading north, all outputs requested: the
    antipode, reached at azimuth 180 after pi times the radius. *)
Example Position_on_equator_line :
  Position Sample.ext Sample.equator_line true 180
    (Z.lor (Z.lor (Z.lor LATITUDE LONGITUDE) AZIMUTH) DISTANCE) Sample.outs0
  = (180, mkOutputs 0 (-180) 180 (6378137 * Sample.pi) 5 6 7 8).
Proof. vm_compute. reflexivity. Qed.

(** The same call on the line built with [caps = 0]: only latitude and
    azimuth are delivered, the other locations keep their contents. *)
Example Position_on_bare_line :
  Position Sample.ext Sample.bare_line true 180 ALL Sample.outs0
  = (180, mkOutputs 0 2 180 4 5 6 7 8).
Proof. vm_compute. reflexivity. Qed.
End LineClaims.

(** ** Intersect::segmentmode *)

Section SegmentFacts.
Import Intersect.
Local Open Scope float_scope.

(** The code of one coordinate, as the source computes it. *)
Lemma kcode_sound (s v : float) (k : Z) :
  (0 <=? s) = true -> kcode s v k ->
  (if v <? 0 then (-1)%Z else if v <=? s then 0%Z else 1%Z) = k.
Proof.
  intros Hs [Hv|Hv0 Hvs|Hsv].
  - rewrite Hv. reflexivity.
  - rewrite (leb_ltb_flip _ _ Hv0), Hvs. reflexivity.
  - rewrite (past_nonneg_bound _ _ Hs Hsv), (ltb_leb_flip _ _ Hsv).
    reflexivity.
Qed.

(** Every coordinate that is a number has a code against a bound that is a
    number. *)
Lemma kcode_total (s v : float) :
  (s =? s) = true -> (v =? v) = true -> exists k, kcode s v k.
Proof.
  intros Hs Hv.
  destruct (v <? 0) eqn:Hlt; [exists (-1)%Z; constructor; assumption|].
  destruct (v <=? s) eqn:Hle.
  - exists 0%Z. constructor; [|assumption].
    apply not_ltb_leb; [assumption|reflexivity|assumption].
  - exists 1%Z. constructor. apply not_leb_ltb; assumption.
Qed.

Lemma inside_iff (s v : float) :
  (if v <? 0 then (-1)%Z else if v <=? s then 0%Z else 1%Z) = 0%Z
  <-> (0 <=? v) = true /\ (v <=? s) = true.
Proof.
  split.
  - destruct (v <? 0) eqn:Hlt; [discriminate|].
    destruct (v <=? s) eqn:Hle; [|discriminate].
    intros _. split; [|reflexivity].
    apply not_ltb_leb; [apply (leb_number v s Hle)|reflexivity|assumption].
  - intros [H0 Hs]. rewrite (leb_ltb_flip _ _ H0), Hs. reflexivity.
Qed.

(** C7: for segment lengths [sx], [sy] (non-negative) and every point [p],
    [segmentmode sx sy p = 3 * kx + ky], where [kx] is -1, 0 or +1 as [p.x]
    is before, inside or past [0, sx] and [ky] likewise for [p.y] and [sy];
    and the mode is 0 exactly when the point lies inside both segments. *)
Theorem segmentmode_is_3kx_plus_ky (sx sy : float) (p : XPoint) :
  (0 <=? sx) = true -> (0 <=? sy) = true ->
  (forall kx ky : Z,
      kcode sx (x p) kx -> kcode sy (y p) ky ->
      segmentmode sx sy p = (3 * kx + ky)%Z)
  /\ (segmentmode sx sy p = 0%Z
      <-> ((0 <=? x p) = true /\ (x p <=? sx) = true)
          /\ ((0 <=? y p) = true /\ (y p <=? sy) = true)).
Proof.
  intros Hsx Hsy. split.
  - intros kx ky Hx Hy. unfold segmentmode.
    rewrite (kcode_sound _ _ _ Hsx Hx), (kcode_sound _ _ _ Hsy Hy). lia.
  - rewrite <- !inside_iff. unfold segmentmode.
    destruct (x p <? 0), (x p <=? sx), (y p <? 0), (y p <=? sy);
      split; try (intros [? ?]); try split; try reflexivity;
      try discriminate; try lia.
Qed.

Lemma segmentmode_is_3kx_plus_ky_witness :
  ((0 <=? 10) = true /\ (0 <=? 20) = true)
  /\ segmentmode 10 20 (mkXPoint 5 25 0) = (3 * 0 + 1)%Z.
Proof.
  split; [split; reflexivity|].
  apply (segmentmode_is_3kx_plus_ky 10 20 (mkXPoint 5 25 0));
    try reflexivity.
  - apply kcode_inside; reflexivity.
  - apply kcode_past; reflexivity.
Defined.
End SegmentFacts.

(** ** Intersect::SetComp *)

Section SetCompFacts.
Import Intersect.
Local Open Scope float_scope.

Lemma SetComp_eq_sym (slop : float) (p q : XPoint) :
  SetComp.eq slop p q = SetComp.eq slop q p.
Proof.
  unfold SetComp.eq, d1.
  rewrite (abs_sub_sym (x p) (x q)), (abs_sub_sym (y p) (y q)). reflexivity.
Qed.


End SetCompFacts.

(** ** The inverse solver's failure signal *)

Section InverseFacts.
Import InverseModel.
Variable State : Type.
Variable step : State -> State * bool.
Variable finish : State -> Result.

Lemma newton_diverges (fuel numit : nat) (st : State) :
  diverges State step fuel st ->
  newton State step fuel numit st
  = (iterate State step fuel st, (numit + fuel)%nat).
Proof.
  revert numit st. induction fuel as [|fuel IH]; intros numit st Hd.
  - simpl. rewrite Nat.add_0_r. reflexivity.
  - destruct Hd as [Hrej Hd]. simpl.
    destruct (step st) as [st' accepted]. simpl in Hrej, Hd. subst accepted.
    rewrite IH by assumption. f_equal. lia.
Qed.

(** The loop leaves [numit] below its bound as soon as one step accepts. *)
Lemma newton_converges (fuel numit : nat) (st : State) :
  ~ diverges State step fuel st ->
  (snd (newton State step fuel numit st) < numit + fuel)%nat.
Proof.
  revert numit st. induction fuel as [|fuel IH]; intros numit st Hd.
  - exfalso. apply Hd. exact I.
  - simpl. destruct (step st) as [st' accepted] eqn:Hs.
    destruct accepted; simpl; [lia|].
    assert (Hd' : ~ diverges State step fuel st').
    { intros Hd'. apply Hd. simpl. rewrite Hs. split; [reflexivity|exact Hd']. }
    specialize (IH (S numit) st' Hd'). lia.
Qed.

Lemma Inverse_converged (st0 : State) :
  ~ diverges State step Geodesic.maxit st0 ->
  Inverse State step finish st0
  = finish (fst (newton State step Geodesic.maxit 0 st0)).
Proof.
  intros Hd. unfold Inverse.
  pose proof (newton_converges Geodesic.maxit 0 st0 Hd) as Hlt.
  destruct (newton State step Geodesic.maxit 0 st0) as [st numit].
  cbn [fst snd] in Hlt |- *.
  rewrite (proj2 (Nat.leb_gt Geodesic.maxit numit)) by lia. reflexivity.
Qed.

(** C2: when none of the [maxit = 50] Newton steps accepts its update,
    [Inverse] returns (it is a total function: nothing is thrown) the
    result computed from the last iterate with [a12], [s12] and [m12]
    negated and both azimuths reversed. *)
Theorem Inverse_signals_divergence (st0 : State) :
  diverges State step Geodesic.maxit st0 ->
  let r := finish (iterate State step Geodesic.maxit st0) in
  Inverse State step finish st0 = signal_failure r
  /\ a12 (Inverse State step finish st0) = (- a12 r)%float
  /\ s12 (Inverse State step finish st0) = (- s12 r)%float
  /\ m12 (Inverse State step finish st0) = (- m12 r)%float
  /\ salp1 (Inverse State step finish st0) = (- salp1 r)%float
  /\ calp1 (Inverse State step finish st0) = (- calp1 r)%float
  /\ salp2 (Inverse State step finish st0) = (- salp2 r)%float
  /\ calp2 (Inverse State step finish st0) = (- calp2 r)%float.
Proof.
  intros Hd r.
  assert (H : Inverse State step finish st0 = signal_failure r).
  { unfold Inverse. rewrite (newton_diverges _ 0 _ Hd). reflexivity. }
  rewrite H. repeat split.
Qed.
End InverseFacts.

Lemma Inverse_signals_divergence_witness :
  InverseModel.diverges nat (fun n => (S n, false)) Geodesic.maxit 0%nat
  /\ InverseModel.Inverse nat (fun n => (S n, false))
       (fun _ => InverseModel.mkResult 90 10001965.5 6378137 0 1 0 1) 0%nat
     = InverseModel.mkResult (-90) (-10001965.5) (-6378137) (-0) (-1) (-0) (-1).
Proof.
  assert (Hd : InverseModel.diverges nat (fun n => (S n, false))
                 Geodesic.maxit 0%nat)
    by (vm_compute; repeat split).
  split; [exact Hd|].
  apply (Inverse_signals_divergence nat (fun n => (S n, false))
           (fun _ => InverseModel.mkResult 90 10001965.5 6378137 0 1 0 1)
           0%nat Hd).
Defined.
(** ** The order of binary64 floats

    [<] and [==] on floats that are numbers behave as on the reals; NaN is
    related to nothing.  The comparators of Intersect.hpp are built from
    these two tests. *)

Section OrderFacts.
Local Open Scope float_scope.

Ltac to_SFcompare :=
  rewrite ?FloatAxioms.ltb_spec, ?FloatAxioms.leb_spec, ?FloatAxioms.eqb_spec;
  unfold SFltb, SFleb, SFeqb.

Lemma SFcompare_Eq_l (a b c : spec_float) :
  SFcompare a b = Some Eq -> SFcompare a c = SFcompare b c.
Proof.
  destruct a as [sa|sa| |sa ma ea], b as [sb|sb| |sb mb eb]; simpl;
    try discriminate;
    try (destruct sa; discriminate); try (destruct sb; discriminate).
  - intros _. destruct c; reflexivity.
  - destruct sa, sb; try discriminate; intros _; destruct c; reflexivity.
  - intros H. assert (He : sa = sb /\ ea = eb /\ ma = mb).
    { revert H. destruct sa, sb; try discriminate;
        destruct (Z.compare_spec ea eb); try discriminate;
        rewrite compare_cont_Z;
        destruct (Z.compare_spec (Z.pos ma) (Z.pos mb)); try discriminate;
        intros _; repeat split; congruence. }
    destruct He as (-> & -> & ->). reflexivity.
Qed.

Lemma SFcompare_Eq_r (a b c : spec_float) :
  SFcompare a b = Some Eq -> SFcompare c a = SFcompare c b.
Proof.
  intros H. rewrite (SFcompare_antisym a c), (SFcompare_antisym b c).
  rewrite (SFcompare_Eq_l a b c H). reflexivity.
Qed.

Lemma SFcompare_Lt_trans (a b c : spec_float) :
  SFcompare a b = Some Lt -> SFcompare b c = Some Lt ->
  SFcompare a c = Some Lt.
Proof.
  destruct a as [sa|sa| |sa ma ea], b as [sb|sb| |sb mb eb],
    c as [sc|sc| |sc mc ec]; simpl;
    try destruct sa; try destruct sb; try destruct sc;
    try discriminate; try reflexivity; rewrite !compare_cont_Z;
    intros H1 H2; f_equal;
    destruct (Z.compare_spec ea eb); try discriminate;
    destruct (Z.compare_spec eb ec); try discriminate;
    destruct (Z.compare_spec ea ec); try reflexivity; try lia;
    destruct (Z.compare_spec (Z.pos ma) (Z.pos mb)); try discriminate;
    destruct (Z.compare_spec (Z.pos mb) (Z.pos mc)); try discriminate;
    destruct (Z.compare_spec (Z.pos ma) (Z.pos mc)); try reflexivity; lia.
Qed.

Lemma ltb_irrefl (a : float) : (a <? a) = false.
Proof.
  to_SFcompare.
  destruct (SFcompare (Prim2SF a) (Prim2SF a)) as [k|] eqn:Hk;
    [|reflexivity].
  rewrite (SFcompare_refl _ _ _ Hk) in Hk. injection Hk as <-. reflexivity.
Qed.

Lemma ltb_asym (a b : float) : (a <? b) = true -> (b <? a) = false.
Proof.
  to_SFcompare. rewrite (SFcompare_antisym (Prim2SF a) (Prim2SF b)).
  destruct (SFcompare (Prim2SF a) (Prim2SF b)) as [[| |]|]; simpl;
    congruence.
Qed.

Lemma eqb_sym (a b : float) : (a =? b) = (b =? a).
Proof.
  to_SFcompare. rewrite (SFcompare_antisym (Prim2SF b) (Prim2SF a)).
  destruct (SFcompare (Prim2SF b) (Prim2SF a)) as [[| |]|]; reflexivity.
Qed.

Lemma ltb_not_eqb (a b : float) : (a <? b) = true -> (a =? b) = false.
Proof.
  to_SFcompare.
  destruct (SFcompare (Prim2SF a) (Prim2SF b)) as [[| |]|]; congruence.
Qed.

Lemma ltb_trans (a b c : float) :
  (a <? b) = true -> (b <? c) = true -> (a <? c) = true.
Proof.
  to_SFcompare. intros H1 H2.
  rewrite (SFcompare_Lt_trans (Prim2SF a) (Prim2SF b) (Prim2SF c));
    [reflexivity| |].
  - destruct (SFcompare (Prim2SF a) (Prim2SF b)) as [[| |]|];
      congruence.
  - destruct (SFcompare (Prim2SF b) (Prim2SF c)) as [[| |]|];
      congruence.
Qed.

Lemma eqb_Eq (a b : float) :
  (a =? b) = true -> SFcompare (Prim2SF a) (Prim2SF b) = Some Eq.
Proof.
  to_SFcompare.
  destruct (SFcompare (Prim2SF a) (Prim2SF b)) as [[| |]|]; congruence.
Qed.

(** Floats that test equal are interchangeable in every comparison. *)
Lemma eqb_ltb_l (a b c : float) :
  (a =? b) = true -> (a <? c) = (b <? c).
Proof.
  intros H. to_SFcompare. rewrite (SFcompare_Eq_l _ _ _ (eqb_Eq a b H)).
  reflexivity.
Qed.

Lemma eqb_ltb_r (a b c : float) :
  (a =? b) = true -> (c <? a) = (c <? b).
Proof.
  intros H. to_SFcompare. rewrite (SFcompare_Eq_r _ _ _ (eqb_Eq a b H)).
  reflexivity.
Qed.

Lemma eqb_eqb_l (a b c : float) :
  (a =? b) = true -> (a =? c) = (b =? c).
Proof.
  intros H. to_SFcompare. rewrite (SFcompare_Eq_l _ _ _ (eqb_Eq a b H)).
  reflexivity.
Qed.

(** Two numbers neither of which is below the other test equal. *)
Lemma not_ltb_eqb (a b : float) :
  (a =? a) = true -> (b =? b) = true ->
  (a <? b) = false -> (b <? a) = false -> (a =? b) = true.
Proof.
  intros Ha Hb. pose proof (eqb_Eq a a Ha) as Haa.
  pose proof (eqb_Eq b b Hb) as Hbb.
  destruct (SFcompare_defined _ _ _ _ Haa Hbb) as [k Hk].
  to_SFcompare. rewrite (SFcompare_antisym (Prim2SF a) (Prim2SF b)), Hk.
  destruct k; simpl; congruence.
Qed.

(** A difference or an L1 norm that is a number was computed from
    numbers. *)
Lemma sub_number (a b : float) :
  (a - b =? a - b) = true -> (a =? a) = true /\ (b =? b) = true.
Proof.
  to_SFcompare. rewrite sub_spec. unfold SF64sub.
  destruct (Prim2SF a) as [sa|sa| |sa ma ea], (Prim2SF b) as [sb|sb| |sb mb eb];
    simpl; try discriminate; intros _;
    rewrite ?Z.compare_refl, ?Pos.compare_cont_refl;
    try destruct sa; try destruct sb; split; reflexivity.
Qed.

Lemma add_number (a b : float) :
  (a + b =? a + b) = true -> (a =? a) = true /\ (b =? b) = true.
Proof.
  to_SFcompare. rewrite add_spec. unfold SF64add.
  destruct (Prim2SF a) as [sa|sa| |sa ma ea], (Prim2SF b) as [sb|sb| |sb mb eb];
    simpl; try discriminate; intros _;
    rewrite ?Z.compare_refl, ?Pos.compare_cont_refl;
    try destruct sa; try destruct sb; split; reflexivity.
Qed.

Lemma abs_number (a : float) : (abs a =? abs a) = (a =? a).
Proof.
  to_SFcompare. rewrite abs_spec.
  destruct (Prim2SF a) as [sa|sa| |sa ma ea]; simpl;
    rewrite ?Z.compare_refl, ?Pos.compare_cont_refl;
    try destruct sa; reflexivity.
Qed.

Lemma d1_number (a b c d : float) :
  (Intersect.d1 (a - b) (c - d) =? Intersect.d1 (a - b) (c - d)) = true ->
  (a =? a) = true /\ (c =? c) = true.
Proof.
  unfold Intersect.d1. intros H.
  destruct (add_number _ _ H) as [H1 H2].
  rewrite abs_number in H1, H2.
  split; [apply (sub_number a b H1)|apply (sub_number c d H2)].
Qed.
End OrderFacts.
(** ** The comparators and helpers of Intersect.hpp *)

Section ComparatorFacts.
Import Intersect.
Local Open Scope float_scope.

(** *** One level of [a != b ? a < b : t]

    Both comparators decide by a first key and fall back on a further test
    [t] when the keys test equal. *)

Lemma level_irrefl (a : float) (t : bool) :
  t = false -> (if negb (a =? a) then a <? a else t) = false.
Proof. intros ->. rewrite ltb_irrefl. destruct (a =? a); reflexivity. Qed.

Lemma level_asym (a b : float) (t t' : bool) :
  (t = true -> t' = false) ->
  (if negb (a =? b) then a <? b else t) = true ->
  (if negb (b =? a) then b <? a else t') = false.
Proof.
  intros Ht. rewrite (eqb_sym b a).
  destruct (a =? b); simpl; [exact Ht|apply ltb_asym].
Qed.

Lemma level_trans (a b c : float) (t1 t2 t3 : bool) :
  (t1 = true -> t2 = true -> t3 = true) ->
  (if negb (a =? b) then a <? b else t1) = true ->
  (if negb (b =? c) then b <? c else t2) = true ->
  (if negb (a =? c) then a <? c else t3) = true.
Proof.
  intros Ht.
  destruct (a =? b) eqn:E1, (b =? c) eqn:E2; simpl; intros H1 H2.
  - rewrite (eqb_eqb_l a b c E1), E2. simpl. auto.
  - rewrite (eqb_eqb_l a b c E1), E2. simpl.
    rewrite (eqb_ltb_l a b c E1). assumption.
  - assert (H : (a <? c) = true)
      by (rewrite <- (eqb_ltb_r b c a E2); assumption).
    rewrite (ltb_not_eqb _ _ H). assumption.
  - pose proof (ltb_trans _ _ _ H1 H2) as H.
    rewrite (ltb_not_eqb _ _ H). assumption.
Qed.

Lemma level_total (a b : float) (t t' : bool) :
  (a =? a) = true -> (b =? b) = true ->
  (if negb (a =? b) then a <? b else t) = false ->
  (if negb (b =? a) then b <? a else t') = false ->
  (a =? b) = true /\ t = false /\ t' = false.
Proof.
  intros Ha Hb. rewrite (eqb_sym b a).
  destruct (a =? b) eqn:E; simpl; intros H1 H2.
  - repeat split; assumption.
  - rewrite (not_ltb_eqb a b Ha Hb H1 H2) in E. discriminate.
Qed.

(** *** RankPoint *)

(** X1: [RankPoint::operator()] is a strict order on all points, NaN
    coordinates included: no point is ranked before itself, two points are
    never ranked both ways, and the ranking is transitive. *)
Theorem RankPoint_strict_order (x0 y0 : float) :
  (forall p : XPoint, RankPoint.before x0 y0 p p = false)
  /\ (forall p q : XPoint,
         RankPoint.before x0 y0 p q = true ->
         RankPoint.before x0 y0 q p = false)
  /\ (forall p q r : XPoint,
         RankPoint.before x0 y0 p q = true ->
         RankPoint.before x0 y0 q r = true ->
         RankPoint.before x0 y0 p r = true).
Proof.
  unfold RankPoint.before. cbv zeta. split; [|split].
  - intros p. apply level_irrefl, level_irrefl, ltb_irrefl.
  - intros p q. apply level_asym, level_asym, ltb_asym.
  - intros p q r. apply level_trans, level_trans, ltb_trans.
Qed.

(** X2: Two points whose distances from the reference point are numbers are
    ranked one way or the other unless their coordinates test equal. *)
Theorem RankPoint_connected (x0 y0 : float) (p q : XPoint) :
  (d1 (x p - x0) (y p - y0) =? d1 (x p - x0) (y p - y0)) = true ->
  (d1 (x q - x0) (y q - y0) =? d1 (x q - x0) (y q - y0)) = true ->
  RankPoint.before x0 y0 p q = true
  \/ RankPoint.before x0 y0 q p = true
  \/ ((x p =? x q) = true /\ (y p =? y q) = true).
Proof.
  intros Hp Hq.
  destruct (d1_number _ _ _ _ Hp) as [Hpx Hpy].
  destruct (d1_number _ _ _ _ Hq) as [Hqx Hqy].
  destruct (RankPoint.before x0 y0 p q) eqn:H1; [left; reflexivity|].
  destruct (RankPoint.before x0 y0 q p) eqn:H2; [right; left; reflexivity|].
  right. right. unfold RankPoint.before in H1, H2. cbv zeta in H1, H2.
  destruct (level_total _ _ _ _ Hp Hq H1 H2) as (_ & H3 & H4).
  destruct (level_total _ _ _ _ Hpx Hqx H3 H4) as (Hx & H5 & H6).
  split; [assumption|]. apply not_ltb_eqb; assumption.
Qed.

Lemma RankPoint_connected_witness :
  ((d1 (1 - 0) (2 - 0) =? d1 (1 - 0) (2 - 0)) = true
   /\ (d1 (3 - 0) (-4 - 0) =? d1 (3 - 0) (-4 - 0)) = true)
  /\ (RankPoint.before 0 0 (mkXPoint 1 2 0) (mkXPoint 3 (-4) 1) = true
      \/ RankPoint.before 0 0 (mkXPoint 3 (-4) 1) (mkXPoint 1 2 0) = true
      \/ ((1 =? 3) = true /\ (2 =? -4) = true)).
Proof.
  split; [split; reflexivity|].
  apply (RankPoint_connected 0 0 (mkXPoint 1 2 0) (mkXPoint 3 (-4) 1));
    reflexivity.
Defined.

(** *** SetComp as an order *)

(** X3: [SetComp::operator()] orders no point before itself and no two points
    both ways; but it is not transitive: with [slop = 1], (0,0) comes before
    (0.5,5), which comes before (1,0), while (0,0) and (1,0) are within [slop]
    of each other and so ordered neither way. *)
Theorem SetComp_before_order :
  (forall (slop : float) (p : XPoint), SetComp.before slop p p = false)
  /\ (forall (slop : float) (p q : XPoint),
         SetComp.before slop p q = true -> SetComp.before slop q p = false)
  /\ (exists (slop : float) (p q r : XPoint),
         SetComp.before slop p q = true /\ SetComp.before slop q r = true
         /\ SetComp.before slop p r = false).
Proof.
  split; [|split].
  - intros slop p. unfold SetComp.before.
    rewrite (level_irrefl (x p) (y p <? y p) (ltb_irrefl _)).
    apply andb_false_r.
  - intros slop p q. unfold SetComp.before. intros H.
    apply andb_true_iff in H. destruct H as [_ H].
    rewrite (level_asym _ _ _ (y q <? y p) (ltb_asym _ _) H).
    apply andb_false_r.
  - exists 1, (mkXPoint 0 0 0), (mkXPoint 0.5 5 0), (mkXPoint 1 0 0).
    repeat split; reflexivity.
Qed.


End ComparatorFacts.
(** ** XPoint arithmetic and the L1 distance *)

Section XPointFacts.
Import Intersect.
Local Open Scope float_scope.

Lemma SFadd_comm (a b : spec_float) : SF64add a b = SF64add b a.
Proof.
  unfold SF64add.
  destruct a as [sa|sa| |sa ma ea], b as [sb|sb| |sb mb eb];
    try (destruct sa, sb; reflexivity);
    try (destruct sa; reflexivity); try (destruct sb; reflexivity);
    try reflexivity.
  unfold SFadd. rewrite (Z.min_comm eb ea). f_equal. apply Z.add_comm.
Qed.

Lemma add_comm (v w : float) : v + w = w + v.
Proof. apply Prim2SF_inj. rewrite !add_spec. apply SFadd_comm. Qed.

(** Rounding gives the result the sign it is asked for: a rounded
    non-negative quantity is never below zero. *)
Lemma binary_round_nonneg (m : positive) (e : Z) :
  SFltb (binary_round prec emax false m e) (S754_zero false) = false.
Proof.
  unfold binary_round.
  destruct (shl_align m e _) as [mz ez].
  unfold binary_round_aux.
  destruct (shr_fexp prec emax (Z.pos mz) ez loc_Exact) as [mrs' e'].
  destruct (shr_fexp prec emax _ e' loc_Exact) as [mrs'' e''].
  destruct (shr_m mrs''); try reflexivity.
  destruct (Z.leb e'' (emax - prec)); reflexivity.
Qed.

Lemma abs_add_nonneg (v w : float) : (abs v + abs w <? 0) = false.
Proof.
  rewrite FloatAxioms.ltb_spec, add_spec, !abs_spec.
  change (Prim2SF 0) with (S754_zero false). unfold SF64add.
  destruct (Prim2SF v) as [sv|sv| |sv mv ev],
    (Prim2SF w) as [sw|sw| |sw mw ew]; try reflexivity.
  cbn [SFabs SFadd cond_Zopp]. rewrite <- Pos2Z.inj_add.
  apply binary_round_nonneg.
Qed.

(** Subtracting the origin's +0 changes at most the sign of a zero. *)
Lemma abs_sub_zero (v : float) : abs (v - 0) = abs v.
Proof.
  apply Prim2SF_inj. rewrite !abs_spec, sub_spec.
  change (Prim2SF 0) with (S754_zero false). unfold SF64sub.
  destruct (Prim2SF v) as [sv|sv| |sv mv ev]; try reflexivity.
  destruct sv; reflexivity.
Qed.

(** X5: The public [Intersect::Dist] is symmetric in its two points, is never
    negative, with the default origin [Point(0, 0)] is [|x| + |y|], the
    distance [XPoint::Dist()] reports, and on the data of two XPoints is
    [XPoint::Dist(p)]. *)
Theorem Point_Dist_properties (p p0 : Point) :
  Point_Dist p p0 = Point_Dist p0 p
  /\ (Point_Dist p p0 <? 0) = false
  /\ Point_Dist p Point_origin = Dist0 (XPoint_of_Point p)
  /\ Point_Dist p p0 = Dist (XPoint_of_Point p) (XPoint_of_Point p0).
Proof.
  unfold Point_Dist, Point_origin, Dist0, Dist, XPoint_of_Point, d1.
  cbn [x y fst snd]. repeat split.
  - rewrite (abs_sub_sym (fst p)), (abs_sub_sym (snd p)). reflexivity.
  - apply abs_add_nonneg.
  - rewrite !abs_sub_zero. reflexivity.
Qed.


(** NaN is absorbing for the arithmetic and fails every comparison. *)
Lemma NaN_sub_l (v : float) : NaN - v = NaN.
Proof.
  apply Prim2SF_inj. rewrite sub_spec. change (Prim2SF NaN) with S754_nan.
  reflexivity.
Qed.

Lemma NaN_sub_r (v : float) : v - NaN = NaN.
Proof.
  apply Prim2SF_inj. rewrite sub_spec. change (Prim2SF NaN) with S754_nan.
  destruct (Prim2SF v); reflexivity.
Qed.

Lemma NaN_add_l (v : float) : NaN + v = NaN.
Proof.
  apply Prim2SF_inj. rewrite add_spec. change (Prim2SF NaN) with S754_nan.
  reflexivity.
Qed.

Lemma NaN_compare (v : float) :
  (NaN <? v) = false /\ (v <? NaN) = false /\ (NaN <=? v) = false
  /\ (NaN =? v) = false /\ (v =? NaN) = false.
Proof.
  rewrite !FloatAxioms.ltb_spec, FloatAxioms.leb_spec, !FloatAxioms.eqb_spec.
  change (Prim2SF NaN) with S754_nan.
  unfold SFltb, SFleb, SFeqb.
  destruct (Prim2SF v); repeat split; reflexivity.
Qed.

(** X7: A default-constructed [XPoint()], both of whose displacements are NaN,
    is within [slop] of no point, itself included, and neither comparator
    orders it against any point, in either direction. *)
Theorem XPoint_default_unordered (slop x0 y0 : float) (q : XPoint) :
  SetComp.eq slop XPoint_default q = false
  /\ SetComp.eq slop q XPoint_default = false
  /\ SetComp.before slop XPoint_default q = false
  /\ SetComp.before slop q XPoint_default = false
  /\ RankPoint.before x0 y0 XPoint_default q = false
  /\ RankPoint.before x0 y0 q XPoint_default = false.
Proof.
  assert (Hd : forall v w : float, d1 (NaN - v) (NaN - w) = NaN).
  { intros v w. unfold d1. rewrite !NaN_sub_l.
    change (abs NaN) with NaN. apply NaN_add_l. }
  assert (He : SetComp.eq slop XPoint_default q = false).
  { unfold SetComp.eq, XPoint_default. cbn [x y]. rewrite Hd.
    apply NaN_compare. }
  pose proof (NaN_compare (x q)) as (H1 & H2 & _ & H3 & H4).
  split; [exact He|]. split; [rewrite SetComp_eq_sym; exact He|].
  unfold SetComp.before, RankPoint.before, XPoint_default. cbn [x y].
  rewrite H1, H2, H3, H4, Hd. cbv zeta.
  pose proof (NaN_compare (d1 (x q - x0) (y q - y0)))
    as (H5 & H6 & _ & H7 & H8).
  rewrite H5, H6, H7, H8.
  repeat split; try reflexivity; apply andb_false_r.
Qed.

(** A finite float minus itself is +0. *)
Lemma sub_self (v : float) : (abs v <? infinity) = true -> v - v = 0.
Proof.
  rewrite FloatAxioms.ltb_spec, abs_spec.
  change (Prim2SF infinity) with (S754_infinity false).
  intros H. apply Prim2SF_inj. rewrite sub_spec. revert H.
  change (Prim2SF 0) with (S754_zero false). unfold SF64sub, SFltb.
  destruct (Prim2SF v) as [s|s| |s m e]; cbn [SFabs SFcompare];
    try discriminate; intros _.
  - destruct s; reflexivity.
  - unfold SFsub. rewrite Z.sub_diag. reflexivity.
Qed.

(** X21: A point with finite coordinates is at distance +0 from itself, and
    [SetComp::eq] holds between it and itself exactly when [slop] is not
    negative (for a negative or NaN [slop] no point is within [slop] of
    itself). *)
Theorem SetComp_eq_reflexive (slop : float) (p : XPoint) :
  (abs (x p) <? infinity) = true -> (abs (y p) <? infinity) = true ->
  Dist p p = 0 /\ SetComp.eq slop p p = (0 <=? slop).
Proof.
  intros Hx Hy. unfold SetComp.eq, Dist, d1.
  rewrite (sub_self _ Hx), (sub_self _ Hy). split; reflexivity.
Qed.

Lemma SetComp_eq_reflexive_witness :
  ((abs 3 <? infinity) = true /\ (abs (-4) <? infinity) = true)
  /\ Dist (mkXPoint 3 (-4) 1) (mkXPoint 3 (-4) 1) = 0
  /\ SetComp.eq (-1) (mkXPoint 3 (-4) 1) (mkXPoint 3 (-4) 1) = false.
Proof.
  split; [split; reflexivity|].
  destruct (SetComp_eq_reflexive (-1) (mkXPoint 3 (-4) 1) eq_refl eq_refl)
    as [Hd He].
  split; [exact Hd|]. rewrite He. reflexivity.
Defined.

(** X8: [segmentmode] packs the two codes without loss: the result lies in
    [-4, 4], and the code of [p.x] and the code of [p.y] are recovered from it
    by division by 3, whatever the arguments. *)
Theorem segmentmode_decode (sx sy : float) (p : XPoint) :
  let kx := if x p <? 0 then (-1)%Z else if x p <=? sx then 0%Z else 1%Z in
  let ky := if y p <? 0 then (-1)%Z else if y p <=? sy then 0%Z else 1%Z in
  (-4 <= segmentmode sx sy p <= 4)%Z
  /\ ((segmentmode sx sy p + 4) / 3 - 1 = kx)%Z
  /\ ((segmentmode sx sy p + 4) mod 3 - 1 = ky)%Z.
Proof.
  unfold segmentmode.
  destruct (x p <? 0), (x p <=? sx), (y p <? 0), (y p <=? sy); cbv zeta;
    repeat split; try reflexivity; lia.
Qed.
End XPointFacts.
(** ** What one output of Position depends on *)

Section PositionOutputs.
Variable E : Externals.
Import Mask GeodesicLine.
Local Open Scope float_scope.

Lemma let_pair_eta (A B C : Type) (p : A * B) (f : A -> B -> C) :
  (let '(v, w) := p in f v w) = f (fst p) (snd p).
Proof. destruct p; reflexivity. Qed.

Ltac mask_tests :=
  rewrite ?test_LATITUDE, ?test_LONGITUDE, ?test_AZIMUTH, ?test_DISTANCE,
    ?test_REDUCEDLENGTH, ?test_GEODESICSCALE, ?test_AREA, ?test_lengths,
    ?test_series1.

(** One step through the bodies of two [Position] calls: the outermost
    local of the first call that still has one is named; a test that
    chooses a tuple of locals is decided once for both calls. *)
Ltac name_local tac :=
  match goal with
  | |- context G [let v := ?d in @?b v] =>
      let y := fresh v in
      pose (y := d);
      let g := context G [b y] in
      change g; cbv beta; tac y
  | |- context [match ?p with pair _ _ => _ end] =>
      lazymatch p with
      | pair _ _ => cbv beta iota
      | if ?t then _ else _ =>
          first [ match goal with H : t = _ |- _ => rewrite H end
                | destruct t eqn:? ]
      | _ => destruct p
      end
  end.

Ltac out_fields :=
  cbv beta iota zeta
    delta [lat2 lon2 azi2 s12 m12 M12 M21 S12 set_lat2 set_lon2 set_azi2
           set_s12 set_m12 set_M12 set_M21 set_S12].

(** Decides the tests that choose between two states of the outputs. *)
Ltac split_writes :=
  repeat match goal with
         | |- context [if ?t then ?a else _] =>
             lazymatch type of a with
             | Outputs => destruct t eqn:?
             end
         end.

Ltac track2 proj Hr1 Hr2 :=
  repeat name_local ltac:(fun y =>
    lazymatch type of y with
    | Z =>
        subst y; mask_tests; rewrite ?Hr1, ?Hr2, ?orb_true_r;
        cbv beta iota delta [orb]
    | Outputs =>
        let Hy := fresh "Hy" in
        eassert (Hy : proj y = _)
          by (subst y; cbv beta iota zeta; rewrite ?let_pair_eta;
              split_writes; out_fields; first [eassumption | reflexivity]);
        clearbody y
    | _ => subst y
    end).

Ltac agree proj :=
  let H := fresh "H" in
  let Hr1 := fresh "Hr" in
  let Hr2 := fresh "Hr" in
  intros H Hr1 Hr2; cbv beta delta [Position];
  rewrite H; cbv beta iota delta [negb];
  track2 proj Hr1 Hr2;
  cbv beta iota delta [snd];
  repeat match goal with
         | Hy : proj ?y = _ |- context [proj ?y] => rewrite Hy; clear Hy
         end;
  reflexivity.

Lemma agree_lat2 l arcmode a12 m1 m2 o1 o2 :
  Position_possible E l arcmode = true ->
  requested m1 l bit_LATITUDE = true ->
  requested m2 l bit_LATITUDE = true ->
  lat2 (snd (Position E l arcmode a12 m1 o1))
  = lat2 (snd (Position E l arcmode a12 m2 o2)).
Proof. agree lat2. Qed.

Lemma agree_lon2 l arcmode a12 m1 m2 o1 o2 :
  Position_possible E l arcmode = true ->
  requested m1 l bit_LONGITUDE = true ->
  requested m2 l bit_LONGITUDE = true ->
  lon2 (snd (Position E l arcmode a12 m1 o1))
  = lon2 (snd (Position E l arcmode a12 m2 o2)).
Proof. agree lon2. Qed.

Lemma agree_azi2 l arcmode a12 m1 m2 o1 o2 :
  Position_possible E l arcmode = true ->
  requested m1 l bit_AZIMUTH = true ->
  requested m2 l bit_AZIMUTH = true ->
  azi2 (snd (Position E l arcmode a12 m1 o1))
  = azi2 (snd (Position E l arcmode a12 m2 o2)).
Proof. agree azi2. Qed.

Lemma agree_s12 l arcmode a12 m1 m2 o1 o2 :
  Position_possible E l arcmode = true ->
  requested m1 l bit_DISTANCE = true ->
  requested m2 l bit_DISTANCE = true ->
  s12 (snd (Position E l arcmode a12 m1 o1))
  = s12 (snd (Position E l arcmode a12 m2 o2)).
Proof. agree s12. Qed.

Lemma agree_m12 l arcmode a12 m1 m2 o1 o2 :
  Position_possible E l arcmode = true ->
  requested m1 l bit_REDUCEDLENGTH = true ->
  requested m2 l bit_REDUCEDLENGTH = true ->
  m12 (snd (Position E l arcmode a12 m1 o1))
  = m12 (snd (Position E l arcmode a12 m2 o2)).
Proof. agree m12. Qed.

Lemma agree_M12 l arcmode a12 m1 m2 o1 o2 :
  Position_possible E l arcmode = true ->
  requested m1 l bit_GEODESICSCALE = true ->
  requested m2 l bit_GEODESICSCALE = true ->
  M12 (snd (Position E l arcmode a12 m1 o1))
  = M12 (snd (Position E l arcmode a12 m2 o2)).
Proof. agree M12. Qed.

Lemma agree_M21 l arcmode a12 m1 m2 o1 o2 :
  Position_possible E l arcmode = true ->
  requested m1 l bit_GEODESICSCALE = true ->
  requested m2 l bit_GEODESICSCALE = true ->
  M21 (snd (Position E l arcmode a12 m1 o1))
  = M21 (snd (Position E l arcmode a12 m2 o2)).
Proof. agree M21. Qed.

Lemma agree_S12 l arcmode a12 m1 m2 o1 o2 :
  Position_possible E l arcmode = true ->
  requested m1 l bit_AREA = true ->
  requested m2 l bit_AREA = true ->
  S12 (snd (Position E l arcmode a12 m1 o1))
  = S12 (snd (Position E l arcmode a12 m2 o2)).
Proof. agree S12. Qed.

Lemma agree_return l arcmode a12 m1 m2 o1 o2 :
  fst (Position E l arcmode a12 m1 o1) = fst (Position E l arcmode a12 m2 o2).
Proof.
  destruct (Position_possible E l arcmode) eqn:H.
  - rewrite !Position_return by assumption. reflexivity.
  - rewrite !Position_early_exit by assumption. reflexivity.
Qed.

Lemma requested_same_bit m1 m2 l k b :
  Z.testbit m1 k = Z.testbit m2 k ->
  requested m1 l k = b -> requested m2 l k = b.
Proof. unfold requested. intros ->. exact (fun H => H). Qed.

(** From agreement when the bit is requested to agreement in all cases: a
    location that is not written keeps its content, on the early exit
    too. *)
Ltac own_bit Hagree :=
  let Hb := fresh "Hb" in
  let Ho := fresh "Ho" in
  let Hp := fresh "Hp" in
  let Hr := fresh "Hr" in
  intros Hb Ho;
  match goal with
  | |- _ (snd (Position _ ?l ?am ?a ?m1 ?o1))
       = _ (snd (Position _ ?l ?am ?a ?m2 ?o2)) =>
      destruct (Position_possible E l am) eqn:Hp;
      [ match type of Hb with
        | Z.testbit _ ?k = _ =>
            destruct (requested m1 l k) eqn:Hr;
            pose proof (requested_same_bit m1 m2 l k _ Hb Hr);
            [ apply Hagree; assumption
            | destruct (Position_frame_possible E l am a m1 o1)
                as (?&?&?&?&?&?&?&?);
              destruct (Position_frame_possible E l am a m2 o2)
                as (?&?&?&?&?&?&?&?);
              repeat match goal with
                     | H : _ -> ?v = _ |- context [?v] =>
                         rewrite H by assumption
                     end;
              exact Ho ]
        end
      | rewrite !Position_early_exit by assumption; exact Ho ]
  end.

Lemma own_lat2 l arcmode a12 m1 m2 o1 o2 :
  Z.testbit m1 bit_LATITUDE = Z.testbit m2 bit_LATITUDE ->
  lat2 o1 = lat2 o2 ->
  lat2 (snd (Position E l arcmode a12 m1 o1))
  = lat2 (snd (Position E l arcmode a12 m2 o2)).
Proof. own_bit agree_lat2. Qed.

Lemma own_lon2 l arcmode a12 m1 m2 o1 o2 :
  Z.testbit m1 bit_LONGITUDE = Z.testbit m2 bit_LONGITUDE ->
  lon2 o1 = lon2 o2 ->
  lon2 (snd (Position E l arcmode a12 m1 o1))
  = lon2 (snd (Position E l arcmode a12 m2 o2)).
Proof. own_bit agree_lon2. Qed.

Lemma own_azi2 l arcmode a12 m1 m2 o1 o2 :
  Z.testbit m1 bit_AZIMUTH = Z.testbit m2 bit_AZIMUTH ->
  azi2 o1 = azi2 o2 ->
  azi2 (snd (Position E l arcmode a12 m1 o1))
  = azi2 (snd (Position E l arcmode a12 m2 o2)).
Proof. own_bit agree_azi2. Qed.

Lemma own_s12 l arcmode a12 m1 m2 o1 o2 :
  Z.testbit m1 bit_DISTANCE = Z.testbit m2 bit_DISTANCE ->
  s12 o1 = s12 o2 ->
  s12 (snd (Position E l arcmode a12 m1 o1))
  = s12 (snd (Position E l arcmode a12 m2 o2)).
Proof. own_bit agree_s12. Qed.

Lemma own_m12 l arcmode a12 m1 m2 o1 o2 :
  Z.testbit m1 bit_REDUCEDLENGTH = Z.testbit m2 bit_REDUCEDLENGTH ->
  m12 o1 = m12 o2 ->
  m12 (snd (Position E l arcmode a12 m1 o1))
  = m12 (snd (Position E l arcmode a12 m2 o2)).
Proof. own_bit agree_m12. Qed.

Lemma own_M12 l arcmode a12 m1 m2 o1 o2 :
  Z.testbit m1 bit_GEODESICSCALE = Z.testbit m2 bit_GEODESICSCALE ->
  M12 o1 = M12 o2 ->
  M12 (snd (Position E l arcmode a12 m1 o1))
  = M12 (snd (Position E l arcmode a12 m2 o2)).
Proof. own_bit agree_M12. Qed.

Lemma own_M21 l arcmode a12 m1 m2 o1 o2 :
  Z.testbit m1 bit_GEODESICSCALE = Z.testbit m2 bit_GEODESICSCALE ->
  M21 o1 = M21 o2 ->
  M21 (snd (Position E l arcmode a12 m1 o1))
  = M21 (snd (Position E l arcmode a12 m2 o2)).
Proof. own_bit agree_M21. Qed.

Lemma own_S12 l arcmode a12 m1 m2 o1 o2 :
  Z.testbit m1 bit_AREA = Z.testbit m2 bit_AREA ->
  S12 o1 = S12 o2 ->
  S12 (snd (Position E l arcmode a12 m1 o1))
  = S12 (snd (Position E l arcmode a12 m2 o2)).
Proof. own_bit agree_S12. Qed.

(** X9: What [Position] leaves in one output location depends on the mask only
    through the bit of that output: two calls on the same line with the same
    [arcmode] and [a12] return the same value, and leave the same content in
    every location whose bit both masks have or both lack, if the location
    held the same content before. So an output is the same whichever other
    outputs are asked for along with it. *)
Theorem Position_output_depends_on_own_bit (l : GeodesicLine.t)
    (arcmode : bool) (a12 : float) (m1 m2 : Z) (o1 o2 : Outputs) :
  let r1 := Position E l arcmode a12 m1 o1 in
  let r2 := Position E l arcmode a12 m2 o2 in
  fst r1 = fst r2
  /\ (Z.testbit m1 bit_LATITUDE = Z.testbit m2 bit_LATITUDE ->
      lat2 o1 = lat2 o2 -> lat2 (snd r1) = lat2 (snd r2))
  /\ (Z.testbit m1 bit_LONGITUDE = Z.testbit m2 bit_LONGITUDE ->
      lon2 o1 = lon2 o2 -> lon2 (snd r1) = lon2 (snd r2))
  /\ (Z.testbit m1 bit_AZIMUTH = Z.testbit m2 bit_AZIMUTH ->
      azi2 o1 = azi2 o2 -> azi2 (snd r1) = azi2 (snd r2))
  /\ (Z.testbit m1 bit_DISTANCE = Z.testbit m2 bit_DISTANCE ->
      s12 o1 = s12 o2 -> s12 (snd r1) = s12 (snd r2))
  /\ (Z.testbit m1 bit_REDUCEDLENGTH = Z.testbit m2 bit_REDUCEDLENGTH ->
      m12 o1 = m12 o2 -> m12 (snd r1) = m12 (snd r2))
  /\ (Z.testbit m1 bit_GEODESICSCALE = Z.testbit m2 bit_GEODESICSCALE ->
      M12 o1 = M12 o2 -> M12 (snd r1) = M12 (snd r2))
  /\ (Z.testbit m1 bit_GEODESICSCALE = Z.testbit m2 bit_GEODESICSCALE ->
      M21 o1 = M21 o2 -> M21 (snd r1) = M21 (snd r2))
  /\ (Z.testbit m1 bit_AREA = Z.testbit m2 bit_AREA ->
      S12 o1 = S12 o2 -> S12 (snd r1) = S12 (snd r2)).
Proof.
  cbv zeta. split; [apply agree_return|].
  split; [apply own_lat2|]. split; [apply own_lon2|].
  split; [apply own_azi2|]. split; [apply own_s12|].
  split; [apply own_m12|]. split; [apply own_M12|].
  split; [apply own_M21|apply own_S12].
Qed.

(** *** Distance mode hands the distance back *)

(** X10: In distance mode a call that is not refused and is asked for DISTANCE
    on a line that can give it writes to [s12] the very distance it was given,
    unrounded. *)
Theorem Position_distance_echo (l : GeodesicLine.t) (a12 : float)
    (outmask : Z) (o : Outputs) :
  Position_possible E l false = true ->
  requested outmask l bit_DISTANCE = true ->
  s12 (snd (Position E l false a12 outmask o)) = a12.
Proof.
  intros H Hr. cbv beta delta [Position].
  rewrite H. cbv beta iota delta [negb].
  track2 s12 Hr Hr.
  all: cbv beta iota delta [snd]; assumption.
Qed.

(** *** The sign of a zero azimuth *)

Lemma zero_minus (v : float) : (0 - v =? 0) = true -> 0 - v = 0.
Proof.
  intros H. apply Prim2SF_inj. revert H.
  rewrite FloatAxioms.eqb_spec, sub_spec.
  change (Prim2SF 0) with (S754_zero false). unfold SF64sub, SFeqb.
  destruct (Prim2SF v) as [sv|sv| |sv mv ev]; try destruct sv;
    simpl; intros H; try discriminate; reflexivity.
Qed.

(** X11: An azimuth that [Position] writes is never the negative zero: when
    [azi2] tests equal to zero it is +0, whatever [atan2] returned. *)
Theorem Position_azi2_zero_is_positive (l : GeodesicLine.t) (arcmode : bool)
    (a12 : float) (outmask : Z) (o : Outputs) :
  Position_possible E l arcmode = true ->
  requested outmask l bit_AZIMUTH = true ->
  (azi2 (snd (Position E l arcmode a12 outmask o)) =? 0) = true ->
  azi2 (snd (Position E l arcmode a12 outmask o)) = 0.
Proof.
  intros H Hr. rewrite Position_azi2 by assumption.
  unfold azimuth2. destruct (Position_point2 E l arcmode a12) as [[[? ?] ?] ?].
  apply zero_minus.
Qed.

(** *** The overloads *)

Ltac same_output :=
  first [ apply agree_return
        | apply own_lat2; reflexivity | apply own_lon2; reflexivity
        | apply own_azi2; reflexivity | apply own_s12; reflexivity
        | apply own_m12; reflexivity | apply own_M12; reflexivity
        | apply own_M21; reflexivity | apply own_S12; reflexivity ].

(** X12: Every overload of [Position] that takes a distance returns what the
    overload with all seven outputs returns, and leaves in each of its outputs
    what that overload leaves there, whatever the two dummies hold. *)
Theorem Position_overloads_agree (l : GeodesicLine.t)
    (d t t' lat lon azi m M M' S : float) :
  let full := Position7 E l d t' lat lon azi m M M' S in
  (fst (Position2 E l d t lat lon) = fst full
   /\ lat2 (snd (Position2 E l d t lat lon)) = lat2 (snd full)
   /\ lon2 (snd (Position2 E l d t lat lon)) = lon2 (snd full))
  /\ (fst (Position3 E l d t lat lon azi) = fst full
   /\ lat2 (snd (Position3 E l d t lat lon azi)) = lat2 (snd full)
   /\ lon2 (snd (Position3 E l d t lat lon azi)) = lon2 (snd full)
   /\ azi2 (snd (Position3 E l d t lat lon azi)) = azi2 (snd full))
  /\ (fst (Position4 E l d t lat lon azi m) = fst full
   /\ lat2 (snd (Position4 E l d t lat lon azi m)) = lat2 (snd full)
   /\ lon2 (snd (Position4 E l d t lat lon azi m)) = lon2 (snd full)
   /\ azi2 (snd (Position4 E l d t lat lon azi m)) = azi2 (snd full)
   /\ m12 (snd (Position4 E l d t lat lon azi m)) = m12 (snd full))
  /\ (fst (Position5 E l d t lat lon azi M M') = fst full
   /\ lat2 (snd (Position5 E l d t lat lon azi M M')) = lat2 (snd full)
   /\ lon2 (snd (Position5 E l d t lat lon azi M M')) = lon2 (snd full)
   /\ azi2 (snd (Position5 E l d t lat lon azi M M')) = azi2 (snd full)
   /\ M12 (snd (Position5 E l d t lat lon azi M M')) = M12 (snd full)
   /\ M21 (snd (Position5 E l d t lat lon azi M M')) = M21 (snd full))
  /\ (fst (Position6 E l d t lat lon azi m M M') = fst full
   /\ lat2 (snd (Position6 E l d t lat lon azi m M M')) = lat2 (snd full)
   /\ lon2 (snd (Position6 E l d t lat lon azi m M M')) = lon2 (snd full)
   /\ azi2 (snd (Position6 E l d t lat lon azi m M M')) = azi2 (snd full)
   /\ m12 (snd (Position6 E l d t lat lon azi m M M')) = m12 (snd full)
   /\ M12 (snd (Position6 E l d t lat lon azi m M M')) = M12 (snd full)
   /\ M21 (snd (Position6 E l d t lat lon azi m M M')) = M21 (snd full)).
Proof.
  cbv zeta.
  unfold Position2, Position3, Position4, Position5, Position6, Position7.
  repeat split; same_output.
Qed.

(** X13: Every overload of [ArcPosition] leaves in each of its outputs what
    the overload with all eight outputs leaves there, whatever its dummy
    holds. *)
Theorem ArcPosition_overloads_agree (l : GeodesicLine.t)
    (a12 t lat lon azi s m M M' S : float) :
  let full := ArcPosition8 E l a12 lat lon azi s m M M' S in
  (lat2 (ArcPosition2 E l a12 t lat lon) = lat2 full
   /\ lon2 (ArcPosition2 E l a12 t lat lon) = lon2 full)
  /\ (lat2 (ArcPosition3 E l a12 t lat lon azi) = lat2 full
   /\ lon2 (ArcPosition3 E l a12 t lat lon azi) = lon2 full
   /\ azi2 (ArcPosition3 E l a12 t lat lon azi) = azi2 full)
  /\ (lat2 (ArcPosition4 E l a12 t lat lon azi s) = lat2 full
   /\ lon2 (ArcPosition4 E l a12 t lat lon azi s) = lon2 full
   /\ azi2 (ArcPosition4 E l a12 t lat lon azi s) = azi2 full
   /\ s12 (ArcPosition4 E l a12 t lat lon azi s) = s12 full)
  /\ (lat2 (ArcPosition5 E l a12 t lat lon azi s m) = lat2 full
   /\ lon2 (ArcPosition5 E l a12 t lat lon azi s m) = lon2 full
   /\ azi2 (ArcPosition5 E l a12 t lat lon azi s m) = azi2 full
   /\ s12 (ArcPosition5 E l a12 t lat lon azi s m) = s12 full
   /\ m12 (ArcPosition5 E l a12 t lat lon azi s m) = m12 full)
  /\ (lat2 (ArcPosition6 E l a12 t lat lon azi s M M') = lat2 full
   /\ lon2 (ArcPosition6 E l a12 t lat lon azi s M M') = lon2 full
   /\ azi2 (ArcPosition6 E l a12 t lat lon azi s M M') = azi2 full
   /\ s12 (ArcPosition6 E l a12 t lat lon azi s M M') = s12 full
   /\ M12 (ArcPosition6 E l a12 t lat lon azi s M M') = M12 full
   /\ M21 (ArcPosition6 E l a12 t lat lon azi s M M') = M21 full)
  /\ (lat2 (ArcPosition7 E l a12 t lat lon azi s m M M') = lat2 full
   /\ lon2 (ArcPosition7 E l a12 t lat lon azi s m M M') = lon2 full
   /\ azi2 (ArcPosition7 E l a12 t lat lon azi s m M M') = azi2 full
   /\ s12 (ArcPosition7 E l a12 t lat lon azi s m M M') = s12 full
   /\ m12 (ArcPosition7 E l a12 t lat lon azi s m M M') = m12 full
   /\ M12 (ArcPosition7 E l a12 t lat lon azi s m M M') = M12 full
   /\ M21 (ArcPosition7 E l a12 t lat lon azi s m M M') = M21 full).
Proof.
  cbv zeta.
  unfold ArcPosition2, ArcPosition3, ArcPosition4, ArcPosition5,
    ArcPosition6, ArcPosition7, ArcPosition8.
  repeat split; same_output.
Qed.
End PositionOutputs.

Lemma Position_distance_echo_witness :
  (Position_possible Sample.ext Sample.equator_line false = true
   /\ requested Mask.ALL Sample.equator_line Mask.bit_DISTANCE = true)
  /\ s12 (snd (Position Sample.ext Sample.equator_line false 1000 Mask.ALL
                 Sample.outs0)) = 1000%float.
Proof.
  split; [split; reflexivity|].
  apply (Position_distance_echo Sample.ext Sample.equator_line 1000 Mask.ALL
           Sample.outs0); reflexivity.
Defined.

Lemma Position_azi2_zero_is_positive_witness :
  (Position_possible Sample.ext Sample.equator_line true = true
   /\ requested Mask.ALL Sample.equator_line Mask.bit_AZIMUTH = true
   /\ (azi2 (snd (Position Sample.ext Sample.equator_line true 0 Mask.ALL
                     Sample.outs0)) =? 0)%float = true)
  /\ azi2 (snd (Position Sample.ext Sample.equator_line true 0 Mask.ALL
                  Sample.outs0)) = 0%float.
Proof.
  split; [repeat split; reflexivity|].
  apply (Position_azi2_zero_is_positive Sample.ext Sample.equator_line true 0
           Mask.ALL Sample.outs0); reflexivity.
Defined.
(** ** Lines built by the constructor *)

Section BuiltLines.
Variable E : Externals.
Import Mask GeodesicLine.
Local Open Scope float_scope.

(** *** Capabilities put together from enumerators *)

Lemma union_cons (m : Z) (ms : list Z) (i : Z) :
  Z.testbit (union (m :: ms)) i = Z.testbit m i || Z.testbit (union ms) i.
Proof. apply Z.lor_spec. Qed.

(** In a union of enumerators every output bit comes with the capability
    bits its enumerator carries. *)
Lemma union_consistent (ms : list Z) (out cap : Z) :
  In (out, cap)
     [(8, 3); (10, 0); (11, 0); (11, 1); (12, 0); (12, 2); (13, 0); (13, 2);
      (14, 4)]%Z ->
  incl ms values ->
  Z.testbit (union ms) out = true -> Z.testbit (union ms) cap = true.
Proof.
  intros Hin Hms. induction ms as [|m ms IH];
    [change (union []) with 0%Z; rewrite Z.bits_0; discriminate|].
  rewrite !union_cons. intros H.
  assert (Hm : In m values) by (apply Hms; left; reflexivity).
  assert (Hms' : incl ms values)
    by (intros v Hv; apply Hms; right; exact Hv).
  specialize (IH Hms').
  apply orb_true_iff in H. apply orb_true_iff.
  destruct H as [H|H]; [left|right; exact (IH H)].
  revert H. clear IH Hms Hms'.
  repeat (destruct Hin as [Hin|Hin];
          [injection Hin as <- <-;
           repeat (destruct Hm as [<-|Hm]; [vm_compute; congruence|]);
           destruct Hm|]).
  destruct Hin.
Qed.

(** *** What Position reads of a line *)

Lemma test_CAP (caps i : Z) :
  (0 <= i)%Z -> nonzero (Z.land caps (Z.shiftl 1 i)) = Z.testbit caps i.
Proof. apply nonzero_land_bit. Qed.

Ltac mask_tests :=
  rewrite ?test_LATITUDE, ?test_LONGITUDE, ?test_AZIMUTH, ?test_DISTANCE,
    ?test_REDUCEDLENGTH, ?test_GEODESICSCALE, ?test_AREA, ?test_lengths,
    ?test_series1.

Lemma if_false_false (b : bool) : (if b then false else false) = false.
Proof. destruct b; reflexivity. Qed.

Lemma let_cong (A B : Type) (a2 a1 : A) (b2 b1 : A -> B) :
  a2 = a1 -> (forall v, b2 v = b1 v) ->
  (let v := a2 in b2 v) = (let v := a1 in b1 v).
Proof. intros -> H. apply H. Qed.

Lemma pair_cong (A B C : Type) (p2 p1 : A * B) (f2 f1 : A -> B -> C) :
  p2 = p1 -> (forall v w, f2 v w = f1 v w) ->
  (let '(v, w) := p2 in f2 v w) = (let '(v, w) := p1 in f1 v w).
Proof. intros -> H. destruct p1. apply H. Qed.

Section SameBuiltPart.
Variables l1 l2 : GeodesicLine.t.
Hypothesis Hcaps : _caps l2 = _caps l1.
Hypothesis Hinit : Init E l2 = Init E l1.
(** Every output bit of the capabilities comes with its capability
    bits. *)
Hypothesis Hlon :
  Z.testbit (_caps l1) 8 = true -> Z.testbit (_caps l1) 3 = true.
Hypothesis Hdist :
  Z.testbit (_caps l1) 10 = true -> Z.testbit (_caps l1) 0 = true.
Hypothesis Hdin0 :
  Z.testbit (_caps l1) 11 = true -> Z.testbit (_caps l1) 0 = true.
Hypothesis Hdin1 :
  Z.testbit (_caps l1) 11 = true -> Z.testbit (_caps l1) 1 = true.
Hypothesis Hred0 :
  Z.testbit (_caps l1) 12 = true -> Z.testbit (_caps l1) 0 = true.
Hypothesis Hred2 :
  Z.testbit (_caps l1) 12 = true -> Z.testbit (_caps l1) 2 = true.
Hypothesis Hsca0 :
  Z.testbit (_caps l1) 13 = true -> Z.testbit (_caps l1) 0 = true.
Hypothesis Hsca2 :
  Z.testbit (_caps l1) 13 = true -> Z.testbit (_caps l1) 2 = true.
Hypothesis Harea :
  Z.testbit (_caps l1) 14 = true -> Z.testbit (_caps l1) 4 = true.
(** The members every construction sets. *)
Hypothesis Hb : _b l2 = _b l1.
Hypothesis Hc2 : _c2 l2 = _c2 l1.
Hypothesis Hf1 : _f1 l2 = _f1 l1.
Hypothesis Hlon1 : _lon1 l2 = _lon1 l1.
Hypothesis Hsalp1 : _salp1 l2 = _salp1 l1.
Hypothesis Hcalp1 : _calp1 l2 = _calp1 l1.
Hypothesis Hsalp0 : _salp0 l2 = _salp0 l1.
Hypothesis Hcalp0 : _calp0 l2 = _calp0 l1.
Hypothesis Hssig1 : _ssig1 l2 = _ssig1 l1.
Hypothesis Hcsig1 : _csig1 l2 = _csig1 l1.
Hypothesis Hsomg1 : _somg1 l2 = _somg1 l1.
Hypothesis Hcomg1 : _comg1 l2 = _comg1 l1.
Hypothesis Hk2 : _k2 l2 = _k2 l1.
(** The members set under a capability; of a coefficient array, what the
    series makes of it. *)
Hypothesis HC1 : Z.testbit (_caps l1) 0 = true ->
  _A1m1 l2 = _A1m1 l1
  /\ (forall sx cx, SinCosSeries E true sx cx (_C1a l2) Geodesic.nC1
                    = SinCosSeries E true sx cx (_C1a l1) Geodesic.nC1)
  /\ _B11 l2 = _B11 l1 /\ _stau1 l2 = _stau1 l1 /\ _ctau1 l2 = _ctau1 l1.
Hypothesis HC1p : Z.testbit (_caps l1) 1 = true ->
  forall sx cx, SinCosSeries E true sx cx (_C1pa l2) Geodesic.nC1p
                = SinCosSeries E true sx cx (_C1pa l1) Geodesic.nC1p.
Hypothesis HC2 : Z.testbit (_caps l1) 2 = true ->
  _A2m1 l2 = _A2m1 l1
  /\ (forall sx cx, SinCosSeries E true sx cx (_C2a l2) Geodesic.nC2
                    = SinCosSeries E true sx cx (_C2a l1) Geodesic.nC2)
  /\ _B21 l2 = _B21 l1.
Hypothesis HC3 : Z.testbit (_caps l1) 3 = true ->
  (forall sx cx, SinCosSeries E true sx cx (_C3a l2) (Geodesic.nC3 - 1)
                 = SinCosSeries E true sx cx (_C3a l1) (Geodesic.nC3 - 1))
  /\ _A3c l2 = _A3c l1 /\ _B31 l2 = _B31 l1.
Hypothesis HC4 : Z.testbit (_caps l1) 4 = true ->
  (forall sx cx, SinCosSeries E false sx cx (_C4a l2) Geodesic.nC4
                 = SinCosSeries E false sx cx (_C4a l1) Geodesic.nC4)
  /\ _A4 l2 = _A4 l1 /\ _B41 l2 = _B41 l1.

Ltac outer_let :=
  match goal with
  | |- context G [let v := ?d in @?b v] =>
      lazymatch type of d with
      | Z =>
          let y := fresh v in
          pose (y := d);
          let g := context G [b y] in
          change g; cbv beta; subst y
      end
  end.

Ltac case_bit H i :=
  let Hi := fresh "Hbit" in
  destruct (Z.testbit (_caps l1) i) eqn:Hi;
  [ specialize (H eq_refl) | clear H ].

(** What the series makes of the arrays of [l2] it makes of those of
    [l1]. *)
Ltac series :=
  repeat match goal with
         | H : forall sx cx : float, SinCosSeries E _ sx cx (_ l2) _ = _
           |- _ => progress rewrite ?H
         end.

(** Both calls take the same step: the locals agree, and from then on
    stand for the same value. *)
Ltac same_local :=
  cbv beta iota;
  lazymatch goal with
  | |- (let v := ?a2 in @?b2 v) = (let w := ?a1 in @?b1 w) =>
      apply (let_cong _ _ a2 a1 b2 b1); [series; reflexivity|intro]
  | |- (match ?p2 with pair _ _ => _ end)
       = (match ?p1 with pair _ _ => _ end) =>
      first [ constr_eq p2 p1
            | replace p2 with p1 by (series; reflexivity) ];
      destruct p1 as [? ?]
  end.

Lemma Position_possible_same arcmode :
  Position_possible E l2 arcmode = Position_possible E l1 arcmode.
Proof. unfold Position_possible. rewrite Hcaps, Hinit. reflexivity. Qed.

Lemma Position_sig12_same arcmode a12 :
  Position_possible E l1 arcmode = true ->
  Position_sig12 E l2 arcmode a12 = Position_sig12 E l1 arcmode a12.
Proof.
  destruct arcmode; [reflexivity|].
  unfold Position_possible. rewrite test_DISTANCE_IN.
  intros H. apply andb_true_iff in H. destruct H as [_ H].
  destruct (HC1 (Hdin0 H)) as (HA & _ & HB & Hs & Hc).
  unfold Position_sig12. cbv zeta.
  rewrite HA, HB, Hs, Hc, !(HC1p (Hdin1 H)), Hb.
  reflexivity.
Qed.

Lemma Position_same_built_part arcmode a12 outmask o :
  Position E l2 arcmode a12 outmask o = Position E l1 arcmode a12 outmask o.
Proof.
  cbv beta delta [Position].
  rewrite Position_possible_same.
  destruct (Position_possible E l1 arcmode) eqn:Hp; [|reflexivity].
  rewrite (Position_sig12_same arcmode a12 Hp).
  destruct (Position_sig12 E l1 arcmode a12) as [[[sig12 ssig12] csig12] B12].
  cbv beta iota delta [negb].
  repeat outer_let. mask_tests. unfold requested.
  rewrite Hcaps, Hb, Hc2, Hf1, Hlon1, Hsalp1, Hcalp1, Hsalp0, Hcalp0,
    Hssig1, Hcsig1, Hsomg1, Hcomg1, Hk2.
  change bit_LONGITUDE with 8%Z.
  change bit_DISTANCE with 10%Z. change bit_REDUCEDLENGTH with 12%Z.
  change bit_GEODESICSCALE with 13%Z. change bit_AREA with 14%Z.
  clear Hdin0 Hdin1 Hp HC1p.
  case_bit HC1 0%Z; case_bit HC2 2%Z; case_bit HC3 3%Z; case_bit HC4 4%Z.
  all: repeat match goal with
         | H : _ /\ _ |- _ => destruct H
         | H : ?b = true -> false = true |- _ =>
             assert (b = false)
               by (destruct b; [discriminate (H eq_refl)|reflexivity]);
             clear H
         | H : _ -> true = true |- _ => clear H
         end.
  all: repeat match goal with
         | H : Z.testbit (_caps l1) _ = _ |- _ => rewrite ?H; clear H
         end.
  all: rewrite ?andb_false_r; cbv beta iota delta [orb].
  all: repeat match goal with
         | H : _ l2 = _ l1 |- _ => rewrite ?H; clear H
         end.
  all: repeat same_local.
  all: series.
  all: lazymatch goal with |- ?a = ?b => constr_eq a b end; reflexivity.
Qed.
End SameBuiltPart.

(** *** Lines of the constructor *)

Lemma ctor_bit u g lat1 lon1 azi1 caps (i : Z) :
  i <> 7%Z -> i <> 9%Z -> (0 <= i < 15)%Z ->
  Z.testbit (_caps (GeodesicLine_ctor E u g lat1 lon1 azi1 caps)) i
  = Z.testbit caps i.
Proof.
  intros H7 H9 Hi. rewrite ctor_caps, !Z.lor_spec.
  assert (Hc : (i = 0 \/ i = 1 \/ i = 2 \/ i = 3 \/ i = 4 \/ i = 5 \/ i = 6
                \/ i = 8 \/ i = 10 \/ i = 11 \/ i = 12 \/ i = 13
                \/ i = 14)%Z) by lia.
  repeat (destruct Hc as [->|Hc]; [rewrite !orb_false_r; reflexivity|]).
  subst i. rewrite !orb_false_r. reflexivity.
Qed.

Section Built.
(** Of a coefficient array the series reads only what the routine that
    fills it has set: the sum does not depend on what the array held
    before. *)
Hypothesis series_C1 : forall eps old old' sx cx,
  SinCosSeries E true sx cx (C1f E eps old) Geodesic.nC1
  = SinCosSeries E true sx cx (C1f E eps old') Geodesic.nC1.
Hypothesis series_C1p : forall eps old old' sx cx,
  SinCosSeries E true sx cx (C1pf E eps old) Geodesic.nC1p
  = SinCosSeries E true sx cx (C1pf E eps old') Geodesic.nC1p.
Hypothesis series_C2 : forall eps old old' sx cx,
  SinCosSeries E true sx cx (C2f E eps old) Geodesic.nC2
  = SinCosSeries E true sx cx (C2f E eps old') Geodesic.nC2.
Hypothesis series_C3 : forall g eps old old' sx cx,
  SinCosSeries E true sx cx (C3f E g eps old) (Geodesic.nC3 - 1)
  = SinCosSeries E true sx cx (C3f E g eps old') (Geodesic.nC3 - 1).
Hypothesis series_C4 : forall g k2 old old' sx cx,
  SinCosSeries E false sx cx (C4f E g k2 old) Geodesic.nC4
  = SinCosSeries E false sx cx (C4f E g k2 old') Geodesic.nC4.

Variables (u u' : GeodesicLine.t) (g : Geodesic.t).
Variables (lat1 lon1 azi1 : float) (caps : Z).

Ltac ctor_member Hc :=
  intros;
  cbv beta iota zeta
    delta [GeodesicLine_ctor ctor_bet1 ctor_sbet1_raw ctor_cbet1_raw
           SinCosNorm _A1m1 _C1a _B11 _stau1 _ctau1 _C1pa _A2m1 _C2a _B21
           _C3a _A3c _B31 _C4a _A4 _B41];
  rewrite Hc;
  rewrite ?(series_C1 _ (GeodesicLine._C1a u) (GeodesicLine._C1a u')),
    ?(series_C1p _ (GeodesicLine._C1pa u) (GeodesicLine._C1pa u')),
    ?(series_C2 _ (GeodesicLine._C2a u) (GeodesicLine._C2a u')),
    ?(series_C3 _ _ (GeodesicLine._C3a u) (GeodesicLine._C3a u')),
    ?(series_C4 _ _ (GeodesicLine._C4a u) (GeodesicLine._C4a u'));
  reflexivity.

Lemma ctor_cap (i : Z) :
  (0 <= i < 5)%Z ->
  Z.testbit (_caps (GeodesicLine_ctor E u' g lat1 lon1 azi1 caps)) i = true ->
  nonzero (Z.land (Z.lor (Z.lor caps LATITUDE) AZIMUTH) (Z.shiftl 1 i)) = true.
Proof. intros Hi H. rewrite test_CAP by lia. exact H. Qed.

Lemma ctor_same_built_part arcmode a12 outmask o :
  Init E (GeodesicLine_ctor E u g lat1 lon1 azi1 caps)
  = Init E (GeodesicLine_ctor E u' g lat1 lon1 azi1 caps) ->
  (forall out cap,
      In (out, cap)
         [(8, 3); (10, 0); (11, 0); (11, 1); (12, 0); (12, 2); (13, 0);
          (13, 2); (14, 4)]%Z ->
      Z.testbit caps out = true -> Z.testbit caps cap = true) ->
  Position E (GeodesicLine_ctor E u g lat1 lon1 azi1 caps)
    arcmode a12 outmask o
  = Position E (GeodesicLine_ctor E u' g lat1 lon1 azi1 caps)
      arcmode a12 outmask o.
Proof.
  intros Hinit Hcons.
  apply Position_same_built_part; try reflexivity; try assumption;
    try (rewrite !ctor_bit by lia; apply Hcons; cbn [In]; tauto).
  - intros H. pose proof (ctor_cap 0%Z ltac:(lia) H) as Hc.
    change (Z.shiftl 1 0) with CAP_C1 in Hc.
    repeat split; ctor_member Hc.
  - intros H. pose proof (ctor_cap 1%Z ltac:(lia) H) as Hc.
    change (Z.shiftl 1 1) with CAP_C1p in Hc. ctor_member Hc.
  - intros H. pose proof (ctor_cap 2%Z ltac:(lia) H) as Hc.
    change (Z.shiftl 1 2) with CAP_C2 in Hc.
    repeat split; ctor_member Hc.
  - intros H. pose proof (ctor_cap 3%Z ltac:(lia) H) as Hc.
    change (Z.shiftl 1 3) with CAP_C3 in Hc.
    repeat split; ctor_member Hc.
  - intros H. pose proof (ctor_cap 4%Z ltac:(lia) H) as Hc.
    change (Z.shiftl 1 4) with CAP_C4 in Hc.
    repeat split; ctor_member Hc.
Qed.
End Built.
End BuiltLines.

Section BuiltLineTheorems.
Import Mask GeodesicLine.
Local Open Scope float_scope.

(** X14: On a line constructed with capabilities put together from the
    enumerators of [Geodesic::mask], [Position] uses no member the constructor
    has left unset: whatever the members held before the construction, every
    call returns the same value and leaves the same outputs. It is assumed
    that the series reads of a coefficient array only what the routine filling
    it has set, and that [Init] gives the two lines the same answer. *)
Theorem Position_reads_only_built_members (E : Externals)
    (u u' : GeodesicLine.t) (g : Geodesic.t) (lat1 lon1 azi1 : float)
    (ms : list Z) (arcmode : bool) (a12 : float) (outmask : Z)
    (o : Outputs) :
  (forall eps old old' sx cx,
      SinCosSeries E true sx cx (C1f E eps old) Geodesic.nC1
      = SinCosSeries E true sx cx (C1f E eps old') Geodesic.nC1) ->
  (forall eps old old' sx cx,
      SinCosSeries E true sx cx (C1pf E eps old) Geodesic.nC1p
      = SinCosSeries E true sx cx (C1pf E eps old') Geodesic.nC1p) ->
  (forall eps old old' sx cx,
      SinCosSeries E true sx cx (C2f E eps old) Geodesic.nC2
      = SinCosSeries E true sx cx (C2f E eps old') Geodesic.nC2) ->
  (forall g eps old old' sx cx,
      SinCosSeries E true sx cx (C3f E g eps old) (Geodesic.nC3 - 1)
      = SinCosSeries E true sx cx (C3f E g eps old') (Geodesic.nC3 - 1)) ->
  (forall g k2 old old' sx cx,
      SinCosSeries E false sx cx (C4f E g k2 old) Geodesic.nC4
      = SinCosSeries E false sx cx (C4f E g k2 old') Geodesic.nC4) ->
  incl ms values ->
  Init E (GeodesicLine_ctor E u g lat1 lon1 azi1 (union ms))
  = Init E (GeodesicLine_ctor E u' g lat1 lon1 azi1 (union ms)) ->
  Position E (GeodesicLine_ctor E u g lat1 lon1 azi1 (union ms))
    arcmode a12 outmask o
  = Position E (GeodesicLine_ctor E u' g lat1 lon1 azi1 (union ms))
      arcmode a12 outmask o.
Proof.
  intros H1 H1p H2 H3 H4 Hms Hinit.
  apply ctor_same_built_part; try assumption.
  intros out cap Hin. apply union_consistent; assumption.
Qed.

Lemma Position_reads_only_built_members_witness :
  (incl [LONGITUDE; DISTANCE] values
   /\ Init Sample.ext
        (GeodesicLine_ctor Sample.ext Sample.junk Sample.sphere 0 0 0
           (union [LONGITUDE; DISTANCE]))
      = Init Sample.ext
          (GeodesicLine_ctor Sample.ext Sample.zeroed Sample.sphere 0 0 0
             (union [LONGITUDE; DISTANCE])))
  /\ Position Sample.ext
       (GeodesicLine_ctor Sample.ext Sample.junk Sample.sphere 0 0 0
          (union [LONGITUDE; DISTANCE]))
       true 180 ALL Sample.outs0
     = Position Sample.ext
         (GeodesicLine_ctor Sample.ext Sample.zeroed Sample.sphere 0 0 0
            (union [LONGITUDE; DISTANCE]))
         true 180 ALL Sample.outs0.
Proof.
  assert (Hms : incl [LONGITUDE; DISTANCE] values)
    by (intros m [<-|[<-|[]]]; cbn [In values]; tauto).
  split; [split; [exact Hms|reflexivity]|].
  apply (Position_reads_only_built_members Sample.ext Sample.junk
           Sample.zeroed Sample.sphere 0 0 0 [LONGITUDE; DISTANCE] true 180
           ALL Sample.outs0);
    try (intros; reflexivity).
  exact Hms.
Defined.

(** Capabilities that are not put together from enumerators fall outside:
    with the bare output bit of DISTANCE, which lacks the series it needs,
    the distance delivered is made from whatever [_A1m1] held before the
    construction. *)
Example Position_bare_output_bit :
  s12 (snd (Position Sample.ext
              (GeodesicLine_ctor Sample.ext Sample.junk Sample.sphere 0 0 0
                 (Z.shiftl 1 10))
              true 180 ALL Sample.outs0)) = NaN
  /\ s12 (snd (Position Sample.ext
                 (GeodesicLine_ctor Sample.ext Sample.zeroed Sample.sphere
                    0 0 0 (Z.shiftl 1 10))
                 true 180 ALL Sample.outs0)) = 6378137 * Sample.pi.
Proof. split; vm_compute; reflexivity. Qed.

(** X15: Distance mode is available on a constructed line exactly when the
    capabilities asked for have the DISTANCE_IN output bit (and [Init] holds).
    On a line constructed with at least [Intersect::LineCaps], once [Init]
    holds, every distance-mode call is served: it returns the arc length,
    and each of [lat2], [lon2], [azi2], [m12], [M12], [M21] the call asks
    for is written, with a value that depends on the line and the distance
    only, not on what the location held or on the rest of the mask. *)
Theorem LineCaps_line_serves_distances (E : Externals) (u : GeodesicLine.t)
    (g : Geodesic.t) (lat1 lon1 azi1 : float) (caps : Z) :
  let l := GeodesicLine_ctor E u g lat1 lon1 azi1 caps in
  Position_possible E l false = Init E l && Z.testbit caps bit_DISTANCE_IN
  /\ (Z.land caps Intersect.LineCaps = Intersect.LineCaps ->
      Init E l = true ->
      forall (d : float) (m m' : Z) (o o' : Outputs),
        fst (Position E l false d m o) = sigma12 E l false d / degree E
        /\ (Z.testbit m bit_LATITUDE = true ->
            lat2 (snd (Position E l false d m o)) = latitude2 E l false d)
        /\ (Z.testbit m bit_AZIMUTH = true ->
            azi2 (snd (Position E l false d m o)) = azimuth2 E l false d)
        /\ (Z.testbit m bit_LONGITUDE = true ->
            Z.testbit m' bit_LONGITUDE = true ->
            lon2 (snd (Position E l false d m o))
            = lon2 (snd (Position E l false d m' o')))
        /\ (Z.testbit m bit_REDUCEDLENGTH = true ->
            Z.testbit m' bit_REDUCEDLENGTH = true ->
            m12 (snd (Position E l false d m o))
            = m12 (snd (Position E l false d m' o')))
        /\ (Z.testbit m bit_GEODESICSCALE = true ->
            Z.testbit m' bit_GEODESICSCALE = true ->
            M12 (snd (Position E l false d m o))
            = M12 (snd (Position E l false d m' o'))
            /\ M21 (snd (Position E l false d m o))
               = M21 (snd (Position E l false d m' o')))).
Proof.
  intros l.
  assert (Hp : Position_possible E l false
               = Init E l && Z.testbit caps bit_DISTANCE_IN).
  { unfold Position_possible. rewrite test_DISTANCE_IN.
    unfold l. rewrite ctor_DISTANCE_IN. reflexivity. }
  split; [exact Hp|]. intros Hc Hi.
  assert (Hbit : forall k, Z.testbit Intersect.LineCaps k = true ->
                           Z.testbit caps k = true).
  { intros k Hk. rewrite <- Hc, Z.land_spec in Hk.
    apply andb_true_iff in Hk. apply Hk. }
  assert (Hposs : Position_possible E l false = true)
    by (rewrite Hp, Hi, (Hbit bit_DISTANCE_IN eq_refl); reflexivity).
  assert (Hreq : forall mask k,
             Z.testbit Intersect.LineCaps k = true ->
             Z.testbit mask k = true -> requested mask l k = true).
  { intros mask k Hk Hm. unfold requested, l.
    rewrite Hm, ctor_caps, !Z.lor_spec, (Hbit k Hk). reflexivity. }
  intros d m m' o o'.
  split; [apply Position_return; assumption|].
  split; [intros H; apply Position_lat2; [assumption|];
          apply Hreq; [reflexivity|assumption]|].
  split; [intros H; apply Position_azi2; [assumption|];
          apply Hreq; [reflexivity|assumption]|].
  split; [intros H H'; apply agree_lon2; [assumption| |];
          apply Hreq; first [reflexivity|assumption]|].
  split; [intros H H'; apply agree_m12; [assumption| |];
          apply Hreq; first [reflexivity|assumption]|].
  intros H H'. split; [apply agree_M12|apply agree_M21];
    try assumption; apply Hreq; first [reflexivity|assumption].
Qed.

(** A line made with exactly [Intersect::LineCaps] on the sphere, asked at
    distance 0 for everything: the six outputs of [LineCaps] are written,
    [s12] and [S12], which [LineCaps] lacks, keep their contents. *)
Example LineCaps_line_at_distance_0 :
  Position Sample.ext
    (GeodesicLine_ctor Sample.ext Sample.junk Sample.sphere 0 0 0
       Intersect.LineCaps)
    false 0 ALL Sample.outs0
  = (0, mkOutputs 0 0 0 4 0 1 1 8).
Proof. vm_compute. reflexivity. Qed.

(** X16: The constructor enforces sin(pi) = 0 and cos(pi/2) = 0: whenever the
    azimuth it stores is -180 the stored sine is exactly 0, and whenever it is
    90 or -90 the stored cosine is exactly 0, whatever [sin] and [cos] return;
    azimuths 180 and -180 are both stored as -180, and 90 and -90 as they are.
    *)
Theorem ctor_cardinal_azimuths (E : Externals) (u : GeodesicLine.t)
    (g : Geodesic.t) (lat1 lon1 azi1 : float) (caps : Z) :
  let l := GeodesicLine_ctor E u g lat1 lon1 azi1 caps in
  ((_azi1 l =? -180) = true -> _salp1 l = 0)
  /\ ((abs (_azi1 l) =? 90) = true -> _calp1 l = 0)
  /\ (azi1 = 180 \/ azi1 = -180 -> _azi1 l = -180 /\ _salp1 l = 0)
  /\ (azi1 = 90 \/ azi1 = -90 -> _azi1 l = azi1 /\ _calp1 l = 0).
Proof.
  intros l.
  assert (Hs : (_azi1 l =? -180) = true -> _salp1 l = 0).
  { intros H.
    change (_salp1 l)
      with (if _azi1 l =? -180 then 0 else sin E (_azi1 l * degree E)).
    rewrite H. reflexivity. }
  assert (Hc : (abs (_azi1 l) =? 90) = true -> _calp1 l = 0).
  { intros H.
    change (_calp1 l)
      with (if abs (_azi1 l) =? 90 then 0 else cos E (_azi1 l * degree E)).
    rewrite H. reflexivity. }
  split; [exact Hs|]. split; [exact Hc|]. split.
  - assert (Ha : azi1 = 180 \/ azi1 = -180 -> _azi1 l = -180)
      by (intros [->| ->]; reflexivity).
    intros H. split; [exact (Ha H)|]. apply Hs. rewrite (Ha H). reflexivity.
  - assert (Ha : azi1 = 90 \/ azi1 = -90 -> _azi1 l = azi1)
      by (intros [->| ->]; reflexivity).
    intros H. split; [exact (Ha H)|]. apply Hc. rewrite (Ha H).
    destruct H as [->| ->]; reflexivity.
Qed.
End BuiltLineTheorems.
(** ** The angle helpers of Geodesic.hpp *)

Section AngleFacts.
Local Open Scope float_scope.

(** An angle already in [-180, 180) is left alone. *)
Lemma AngNormalize_fix (y : float) :
  (-180 <=? y) = true -> (y <? 180) = true -> Geodesic.AngNormalize y = y.
Proof.
  intros Hlo Hhi. unfold Geodesic.AngNormalize.
  rewrite (ltb_leb_flip _ _ Hhi), (leb_ltb_flip _ _ Hlo). reflexivity.
Qed.

Lemma AngNormalize_lands (x : float) :
  (-540 <=? x) = true -> (x <? 540) = true ->
  (-180 <=? Geodesic.AngNormalize x) = true
  /\ (Geodesic.AngNormalize x <? 180) = true.
Proof.
  intros Hlo Hhi. unfold Geodesic.AngNormalize.
  destruct (180 <=? x) eqn:H180.
  - destruct (sub_360_exact x H180 Hhi) as (Ha & Hb & _). split; assumption.
  - destruct (x <? -180) eqn:Hm180.
    + destruct (add_360_exact x Hlo Hm180) as (Ha & Hb & _).
      split; assumption.
    + destruct (leb_number _ _ Hlo) as [_ Hx]. split.
      * apply not_ltb_leb; [assumption|reflexivity|assumption].
      * apply not_leb_ltb; [reflexivity|assumption|assumption].
Qed.

(** X17: Normalising twice is normalising once: on [-540, 540) the result of
    [AngNormalize] is a fixed point of [AngNormalize], and every angle in
    [-180, 180) is one. *)
Theorem AngNormalize_idempotent (x : float) :
  (-540 <=? x) = true -> (x <? 540) = true ->
  Geodesic.AngNormalize (Geodesic.AngNormalize x) = Geodesic.AngNormalize x
  /\ ((-180 <=? x) = true -> (x <? 180) = true ->
      Geodesic.AngNormalize x = x).
Proof.
  intros Hlo Hhi. split; [|apply AngNormalize_fix].
  destruct (AngNormalize_lands x Hlo Hhi) as [Ha Hb].
  apply AngNormalize_fix; assumption.
Qed.

Lemma AngNormalize_idempotent_witness :
  ((-540 <=? -270) = true /\ (-270 <? 540) = true)
  /\ Geodesic.AngNormalize (-270) = 90
  /\ Geodesic.AngNormalize (Geodesic.AngNormalize (-270))
     = Geodesic.AngNormalize (-270).
Proof.
  split; [split; reflexivity|]. split; [reflexivity|].
  apply (AngNormalize_idempotent (-270)); reflexivity.
Defined.

(** *** AngRound *)

(** The sign test [x < 0] read off the representation. *)
Lemma ltb_zero_sign (x : float) :
  (x <? 0)
  = match Prim2SF x with
    | S754_finite s _ _ | S754_infinity s => s
    | _ => false
    end.
Proof.
  rewrite FloatAxioms.ltb_spec. change (Prim2SF 0) with (S754_zero false).
  unfold SFltb.
  destruct (Prim2SF x) as [s|s| |s m e]; try destruct s; reflexivity.
Qed.

Lemma abs_opp (x : float) : abs (- x) = abs x.
Proof.
  apply Prim2SF_inj. rewrite !abs_spec, opp_spec.
  destruct (Prim2SF x); reflexivity.
Qed.

Lemma opp_involutive (x : float) : - - x = x.
Proof.
  apply Prim2SF_inj. rewrite !opp_spec.
  destruct (Prim2SF x) as [s|s| |s m e]; simpl; rewrite ?negb_involutive;
    reflexivity.
Qed.

(** Putting the sign back on the magnitude of a number other than zero
    gives the number. *)
Lemma sign_abs (x : float) :
  (x =? 0) = false ->
  (if x <? 0 then - abs x else abs x) = x.
Proof.
  rewrite ltb_zero_sign, FloatAxioms.eqb_spec.
  change (Prim2SF 0) with (S754_zero false). unfold SFeqb.
  intros H. apply Prim2SF_inj. revert H.
  destruct (Prim2SF x) as [s|s| |s m e] eqn:Hx; try destruct s;
    rewrite ?opp_spec, ?abs_spec, ?Hx; simpl; intros H;
    try discriminate; reflexivity.
Qed.

Lemma at_least_sixteenth_nonzero (x : float) :
  (0.0625 <=? abs x) = true -> (x =? 0) = false.
Proof.
  rewrite FloatAxioms.leb_spec, FloatAxioms.eqb_spec, abs_spec.
  change (Prim2SF 0) with (S754_zero false). unfold SFleb, SFeqb.
  destruct (Prim2SF x) as [s|s| |s m e]; try destruct s; simpl;
    intros H; try discriminate; reflexivity.
Qed.

Lemma AngRound_large (x : float) :
  (0.0625 <=? abs x) = true -> Geodesic.AngRound x = x.
Proof.
  intros H. unfold Geodesic.AngRound. cbv zeta.
  rewrite (leb_ltb_flip _ _ H).
  apply sign_abs, at_least_sixteenth_nonzero, H.
Qed.

(** X18: [AngRound] leaves every angle of magnitude at least 1/16 exactly as
    it is, infinities included; and it commutes with negation for every
    argument other than a zero (both zeros are sent to +0). *)
Theorem AngRound_identity_and_symmetry (x : float) :
  ((0.0625 <=? abs x) = true -> Geodesic.AngRound x = x)
  /\ ((x =? 0) = false ->
      Geodesic.AngRound (- x) = - Geodesic.AngRound x)
  /\ Geodesic.AngRound 0 = 0 /\ Geodesic.AngRound (-0) = 0.
Proof.
  split; [apply AngRound_large|split; [|split; reflexivity]].
  intros H. unfold Geodesic.AngRound. cbv zeta. rewrite abs_opp.
  set (y := if abs x <? 0.0625 then 0.0625 - (0.0625 - abs x) else abs x).
  rewrite !ltb_zero_sign, opp_spec.
  assert (Hy : Prim2SF x = S754_nan -> y = - y).
  { intros Hx. subst y.
    assert (Ha : abs x = nan)
      by (apply Prim2SF_inj; rewrite abs_spec, Hx; reflexivity).
    rewrite Ha. reflexivity. }
  revert H Hy. rewrite FloatAxioms.eqb_spec.
  change (Prim2SF 0) with (S754_zero false). unfold SFeqb.
  destruct (Prim2SF x) as [s|s| |s m e]; try destruct s; simpl;
    intros H Hy; try discriminate; rewrite ?opp_involutive;
    try reflexivity.
  apply Hy. reflexivity.
Qed.

(** The angles [AngRound] is there for: a non-zero angle too small to
    matter becomes zero, keeping its sign; the smallest angles that survive
    are the multiples of 2^-57. *)
Example AngRound_tiny :
  Geodesic.AngRound 0x1p-664 = 0
  /\ Geodesic.AngRound (-0x1p-664) = (-0)%float
  /\ Geodesic.AngRound 0x1p-57 = 0x1p-57
  /\ Geodesic.AngRound 0x1.8p-57 = 0x1p-56
  /\ Geodesic.AngRound 0x1p-58 = 0.
Proof. repeat split; vm_compute; reflexivity. Qed.
End AngleFacts.
(** ** AngRound lands on the grid of 2^-57

    For [|x| < 1/16] the two subtractions of [AngRound] are followed in
    [SpecFloat]: [z - y] is rounded to a float that is a multiple of
    2^-57 no larger than [z], and subtracting that from [z] is exact. *)

Section Grid.
Local Open Scope Z_scope.

Lemma iter_pos_nat (A : Type) (f : A -> A) (p : positive) (a : A) :
  iter_pos f p a = Nat.iter (Pos.to_nat p) f a.
Proof.
  revert a. induction p as [p IH|p IH|]; intros a; cbn [iter_pos].
  - rewrite !IH, Pos2Nat.inj_xI.
    replace (S (2 * Pos.to_nat p))
      with (Pos.to_nat p + (Pos.to_nat p + 1))%nat by lia.
    rewrite !Nat.iter_add. reflexivity.
  - rewrite !IH, Pos2Nat.inj_xO.
    replace (2 * Pos.to_nat p)%nat with (Pos.to_nat p + Pos.to_nat p)%nat
      by lia.
    rewrite Nat.iter_add. reflexivity.
  - reflexivity.
Qed.

(** One step of the right shift halves the mantissa. *)
Lemma shr_1_m (r : shr_record) :
  0 <= shr_m r -> shr_m (shr_1 r) = shr_m r / 2 /\ 0 <= shr_m (shr_1 r).
Proof.
  destruct r as [m b s]. cbn [shr_m]. intros Hm. unfold shr_1.
  destruct m as [|[p|p|]|p]; cbn [shr_m]; try lia.
  all: split; [|lia]; try reflexivity.
  - apply Z.div_unique with 1; lia.
  - apply Z.div_unique with 0; lia.
Qed.

Lemma iter_shr_m (n : nat) (r : shr_record) :
  0 <= shr_m r ->
  shr_m (Nat.iter n shr_1 r) = shr_m r / 2 ^ Z.of_nat n
  /\ 0 <= shr_m (Nat.iter n shr_1 r).
Proof.
  intros Hm. induction n as [|n [IH1 IH2]].
  - change (Nat.iter 0 shr_1 r) with r. rewrite Z.div_1_r.
    split; [reflexivity|assumption].
  - rewrite Nat.iter_succ. destruct (shr_1_m _ IH2) as [H1 H2].
    split; [|assumption].
    rewrite H1, IH1, Nat2Z.inj_succ, Z.pow_succ_r by lia.
    rewrite Z.div_div by lia. f_equal. lia.
Qed.

(** Shifting out zeros loses nothing. *)
Lemma iter_shr_exact (n : nat) (q : positive) :
  Nat.iter n shr_1
    {| shr_m := Z.pos (Nat.iter n xO q); shr_r := false; shr_s := false |}
  = {| shr_m := Z.pos q; shr_r := false; shr_s := false |}.
Proof.
  induction n as [|n IH]; [reflexivity|].
  rewrite Nat.iter_succ_r, (Nat.iter_succ n positive xO).
  cbn [shr_1 orb]. exact IH.
Qed.

Lemma nat_iter_xO_value (n : nat) (q : positive) :
  Z.pos (Nat.iter n xO q) = Z.pos q * 2 ^ Z.of_nat n.
Proof.
  induction n as [|n IH]; [change (Nat.iter 0 xO q) with q; lia|].
  rewrite Nat.iter_succ, Pos2Z.inj_xO, IH, Nat2Z.inj_succ, Z.pow_succ_r
    by lia.
  lia.
Qed.

Lemma round_nearest_even_bounds (m : Z) (l : location) :
  m <= round_nearest_even m l <= m + 1.
Proof.
  destruct l as [|[| |]]; cbn [round_nearest_even]; try lia.
  destruct (Z.even m); lia.
Qed.

(** The number of digits is fixed by the binade. *)
Lemma digits_unique (p : positive) (d : Z) :
  2 ^ (d - 1) <= Z.pos p < 2 ^ d -> Z.pos (digits2_pos p) = d.
Proof.
  intros [Hlo Hhi]. pose proof (digits2_pos_bounds p) as [Hlo' Hhi'].
  set (d' := Z.pos (digits2_pos p)) in *.
  destruct (Z.lt_trichotomy d' d) as [H|[H|H]]; [|assumption|].
  - assert (2 ^ d' <= 2 ^ (d - 1)) by (apply Z.pow_le_mono_r; lia). lia.
  - assert (0 <= d).
    { destruct (Z.le_gt_cases 0 d); [assumption|].
      rewrite (Z.pow_neg_r 2 d) in Hhi by lia. lia. }
    assert (2 ^ d <= 2 ^ (d' - 1)) by (apply Z.pow_le_mono_r; lia). lia.
Qed.

(** The second stage of [binary_round_aux], on a mantissa of full
    width. *)
Lemma shr_fexp_full (m : positive) (g : Z) :
  Z.pos (digits2_pos m) = 53 -> -1074 <= g ->
  shr_fexp prec emax (Z.pos m) g loc_Exact
  = ({| shr_m := Z.pos m; shr_r := false; shr_s := false |}, g).
Proof.
  intros Hd Hg. unfold shr_fexp, fexp, Zdigits2. rewrite Hd.
  change (SpecFloat.emin prec emax) with (-1074). change prec with 53.
  replace (Z.max (53 + g - 53) (-1074) - g) with 0 by lia.
  reflexivity.
Qed.

(** The first stage on a mantissa [t] bits too wide: [t] right shifts. *)
Lemma shr_fexp_wide (P t : positive) (e : Z) :
  Z.pos (digits2_pos P) = 53 + Z.pos t -> -1074 <= e + Z.pos t ->
  shr_fexp prec emax (Z.pos P) e loc_Exact
  = (Nat.iter (Pos.to_nat t) shr_1
       {| shr_m := Z.pos P; shr_r := false; shr_s := false |},
     e + Z.pos t).
Proof.
  intros Hd Hg. unfold shr_fexp, fexp, Zdigits2. rewrite Hd.
  change (SpecFloat.emin prec emax) with (-1074). change prec with 53.
  replace (Z.max (53 + Z.pos t + e - 53) (-1074) - e) with (Z.pos t) by lia.
  cbn [shr shr_record_of_loc]. rewrite iter_pos_nat. reflexivity.
Qed.

Lemma binary_round_wide (s : bool) (P t : positive) (e : Z) :
  Z.pos (digits2_pos P) = 53 + Z.pos t -> -1074 <= e + Z.pos t ->
  binary_round prec emax s P e
  = binary_round_aux prec emax s (Z.pos P) e loc_Exact.
Proof.
  intros Hd Hg. unfold binary_round, fexp. rewrite Hd.
  change (SpecFloat.emin prec emax) with (-1074). change prec with 53.
  unfold shl_align.
  replace (Z.max (53 + Z.pos t + e - 53) (-1074) - e) with (Z.pos t) by lia.
  reflexivity.
Qed.

(** Rounding a mantissa that ends in [n] zeros and has 53 bits before
    them only drops the zeros. *)
Lemma binary_round_zeros (s : bool) (q : positive) (n : nat) (e : Z) :
  Z.pos (digits2_pos q) = 53 -> (0 < n)%nat ->
  -1074 <= e + Z.of_nat n <= 971 ->
  binary_round prec emax s (Nat.iter n xO q) e
  = S754_finite s q (e + Z.of_nat n).
Proof.
  intros Hd Hn Hg.
  set (t := Pos.of_nat n).
  assert (Ht : Z.pos t = Z.of_nat n) by (subst t; lia).
  assert (Htn : Pos.to_nat t = n) by (subst t; apply Nat2Pos.id; lia).
  assert (HdP : Z.pos (digits2_pos (Nat.iter n xO q)) = 53 + Z.pos t).
  { apply digits_unique. rewrite nat_iter_xO_value, <- Ht.
    pose proof (digits2_pos_bounds q) as Hq. rewrite Hd in Hq.
    replace (53 + Z.pos t - 1) with (52 + Z.pos t) by lia.
    rewrite !Z.pow_add_r by lia.
    assert (0 < 2 ^ Z.pos t) by (apply Z.pow_pos_nonneg; lia).
    change (53 - 1) with 52 in Hq. nia. }
  rewrite (binary_round_wide s _ t) by lia.
  unfold binary_round_aux.
  rewrite (shr_fexp_wide _ t) by lia.
  rewrite Htn, iter_shr_exact.
  cbn [shr_m loc_of_shr_record round_nearest_even].
  rewrite shr_fexp_full by lia. cbn [shr_m].
  change (emax - prec) with 971. rewrite Ht.
  destruct (Z.leb_spec (e + Z.of_nat n) 971); [reflexivity|lia].
Qed.

(** Rounding a mantissa [t] bits too wide gives a float at the exponent
    [t] higher, or the power of two that starts the next binade. *)
Lemma binary_round_down (s : bool) (P t : positive) (e : Z) :
  Z.pos (digits2_pos P) = 53 + Z.pos t ->
  -1074 <= e + Z.pos t <= 970 ->
  (exists mw : positive,
      binary_round prec emax s P e = S754_finite s mw (e + Z.pos t)
      /\ 2 ^ 52 <= Z.pos mw < 2 ^ 53)
  \/ binary_round prec emax s P e
     = S754_finite s 4503599627370496 (e + Z.pos t + 1).
Proof.
  intros Hd Hg.
  rewrite (binary_round_wide s _ t) by lia.
  unfold binary_round_aux.
  rewrite (shr_fexp_wide _ t) by lia.
  set (r0 := {| shr_m := Z.pos P; shr_r := false; shr_s := false |}).
  destruct (iter_shr_m (Pos.to_nat t) r0) as [Hm _]; [cbn; lia|].
  set (r1 := Nat.iter (Pos.to_nat t) shr_1 r0) in *.
  change (shr_m r0) with (Z.pos P) in Hm. rewrite positive_nat_Z in Hm.
  assert (Hb : 2 ^ 52 <= shr_m r1 < 2 ^ 53).
  { rewrite Hm. pose proof (digits2_pos_bounds P) as HP. rewrite Hd in HP.
    replace (53 + Z.pos t - 1) with (52 + Z.pos t) in HP by lia.
    rewrite !Z.pow_add_r in HP by lia.
    assert (0 < 2 ^ Z.pos t) by (apply Z.pow_pos_nonneg; lia).
    split.
    - apply Z.div_le_lower_bound; lia.
    - apply Z.div_lt_upper_bound; lia. }
  pose proof (round_nearest_even_bounds (shr_m r1) (loc_of_shr_record r1))
    as Hr.
  set (m1 := round_nearest_even (shr_m r1) (loc_of_shr_record r1)) in *.
  change (2 ^ 52) with 4503599627370496 in Hb.
  change (2 ^ 53) with 9007199254740992 in Hb.
  destruct (Z.eq_dec m1 9007199254740992) as [He|Hne].
  - right. rewrite He.
    assert (Hs : shr_fexp prec emax 9007199254740992 (e + Z.pos t) loc_Exact
                 = ({| shr_m := 4503599627370496; shr_r := false;
                       shr_s := false |}, e + Z.pos t + 1)).
    { unfold shr_fexp, fexp.
      change (Zdigits2 9007199254740992) with 54.
      change (SpecFloat.emin prec emax) with (-1074). change prec with 53.
      replace (Z.max (54 + (e + Z.pos t) - 53) (-1074) - (e + Z.pos t))
        with 1 by lia.
      reflexivity. }
    rewrite Hs. cbn [shr_m]. change (emax - prec) with 971.
    destruct (Z.leb_spec (e + Z.pos t + 1) 971); [reflexivity|lia].
  - left. destruct m1 as [|mw|mw] eqn:Em; try lia.
    exists mw.
    assert (Hw : 2 ^ 52 <= Z.pos mw < 2 ^ 53).
    { change (2 ^ 52) with 4503599627370496.
      change (2 ^ 53) with 9007199254740992. lia. }
    split; [|exact Hw].
    rewrite shr_fexp_full by (try apply digits_unique; try exact Hw; lia).
    cbn [shr_m]. change (emax - prec) with 971.
    destruct (Z.leb_spec (e + Z.pos t) 971); [reflexivity|lia].
Qed.

(** 1/16, the constant [z] of [AngRound]. *)
Lemma Prim2SF_sixteenth :
  Prim2SF 0.0625 = S754_finite false 4503599627370496 (-56).
Proof. reflexivity. Qed.

(** The magnitudes below 1/16: zero, or a float at an exponent of at most
    -57. *)
Lemma abs_small_repr (x : float) :
  (abs x <? 0.0625)%float = true ->
  Prim2SF (abs x) = S754_zero false
  \/ exists (m : positive) (e : Z),
       Prim2SF (abs x) = S754_finite false m e
       /\ -1074 <= e <= -57
       /\ Z.pos (digits2_pos m) <= 53
       /\ (-1074 < e -> Z.pos (digits2_pos m) = 53).
Proof.
  rewrite FloatAxioms.ltb_spec, Prim2SF_sixteenth, abs_spec.
  pose proof (Prim2SF_valid x) as Hv. revert Hv.
  destruct (Prim2SF x) as [s|s| |s m e]; cbn [SFabs]; intros Hv H;
    try discriminate; [left; reflexivity|].
  right. exists m, e. split; [reflexivity|].
  unfold SpecFloat.valid_binary, bounded, canonical_mantissa, fexp in Hv.
  change (SpecFloat.emin prec emax) with (-1074) in Hv.
  change prec with 53 in Hv.
  apply andb_true_iff in Hv. destruct Hv as [Hc _]. apply Z.eqb_eq in Hc.
  assert (He : e <= -56).
  { revert H. unfold SFltb, SFcompare.
    destruct (Z.compare_spec e (-56)); try discriminate; lia. }
  assert (He' : e <> -56).
  { intros ->. revert H. unfold SFltb, SFcompare.
    rewrite Z.compare_refl, compare_cont_Z.
    assert (Hd : Z.pos (digits2_pos m) = 53) by lia.
    pose proof (digits2_pos_bounds m) as Hb. rewrite Hd in Hb.
    change (2 ^ (53 - 1)) with 4503599627370496 in Hb.
    destruct (Z.compare_spec (Z.pos m) 4503599627370496);
      try discriminate; lia. }
  lia.
Qed.

Local Abbreviation sixteenth := (S754_finite false 4503599627370496 (-56)).

(** [z - y] for a float [y] below [z]: the integer that is rounded. *)
Lemma sub_from_sixteenth (m : positive) (e : Z) :
  e <= -57 ->
  SFsub prec emax sixteenth (S754_finite false m e)
  = binary_normalize prec emax (2 ^ (-4 - e) - Z.pos m) e false.
Proof.
  intros He. unfold SFsub. rewrite Z.min_r by lia. cbn [cond_Zopp].
  f_equal. unfold shl_align. replace (e - e) with 0 by lia. cbn [fst].
  destruct (e - -56) as [|d|d] eqn:Hd; try lia.
  cbn [fst]. rewrite iter_xO_value.
  change (Z.pos 4503599627370496) with (2 ^ 52).
  rewrite <- Z.pow_add_r by lia. f_equal. f_equal. lia.
Qed.

Lemma binary_round_full (s : bool) (m : positive) (e : Z) :
  Z.pos (digits2_pos m) = 53 -> -1021 <= e <= 971 ->
  binary_round prec emax s m e = S754_finite s m e.
Proof.
  intros Hd He.
  destruct (binary_round_exact s m e) as (mz & Hr & Hmz & _); [lia|lia|].
  rewrite Hr, Hd. rewrite Hd in Hmz.
  change (2 ^ (53 - 53)) with 1 in Hmz. rewrite Z.mul_1_r in Hmz.
  injection Hmz as ->. f_equal. lia.
Qed.

(** The heart of [AngRound]: for a magnitude [y] below 1/16,
    [z - (z - y)] is zero or the float of [q * 2^-57] for an integer [q]
    below 2^53. *)
Lemma round_to_grid (m : positive) (e : Z) :
  -1074 <= e <= -57 ->
  Z.pos (digits2_pos m) <= 53 ->
  (-1074 < e -> Z.pos (digits2_pos m) = 53) ->
  let R := SFsub prec emax sixteenth
             (SFsub prec emax sixteenth (S754_finite false m e)) in
  R = S754_zero false
  \/ exists q : positive,
       Z.pos q < 2 ^ 53 /\ R = binary_round prec emax false q (-57).
Proof.
  intros He Hd Hn. cbv zeta. rewrite sub_from_sixteenth by lia.
  pose proof (digits2_pos_bounds m) as Hm.
  assert (Hm53 : Z.pos m < 2 ^ 53).
  { destruct Hm as [_ Hm]. eapply Z.lt_le_trans; [exact Hm|].
    apply Z.pow_le_mono_r; lia. }
  destruct (Z.eq_dec e (-57)) as [->|He57].
  - (* both subtractions are exact *)
    rewrite (Hn ltac:(lia)) in Hm. change (53 - 1) with 52 in Hm.
    change (-4 - -57) with 53.
    destruct (2 ^ 53 - Z.pos m) as [|M|M] eqn:HM; try lia.
    cbn [binary_normalize].
    assert (HdM : Z.pos (digits2_pos M) <= 53) by (apply digits_le_53; lia).
    destruct (binary_round_exact false M (-57) HdM ltac:(lia))
      as (mz & Hr & Hmz & Hdz).
    rewrite Hr. set (j := 53 - Z.pos (digits2_pos M)) in *.
    assert (Hj : 0 <= j) by (subst j; lia).
    rewrite sub_from_sixteenth by lia.
    right. exists m. split; [assumption|].
    replace (2 ^ (-4 - (-57 - j)) - Z.pos mz) with (Z.pos m * 2 ^ j).
    2:{ replace (-4 - (-57 - j)) with (53 + j) by lia.
        rewrite Z.pow_add_r, Hmz by lia. lia. }
    rewrite (binary_round_full false m (-57)) by lia.
    destruct (Z.eq_dec j 0) as [Hj0|Hj0].
    + rewrite Hj0. change (2 ^ 0) with 1. rewrite Z.mul_1_r, Z.sub_0_r.
      cbn [binary_normalize]. apply binary_round_full; lia.
    + rewrite <- (Z2Nat.id j) by lia. rewrite <- nat_iter_xO_value.
      cbn [binary_normalize].
      rewrite binary_round_zeros by lia. f_equal. lia.
  - (* the first subtraction rounds into [z/2, z] *)
    set (t := -57 - e) in *.
    assert (Ht : 0 < t) by (subst t; lia).
    assert (Hpow : 2 ^ (-4 - e) = 2 ^ 53 * 2 ^ t).
    { rewrite <- Z.pow_add_r by lia. f_equal. subst t. lia. }
    assert (H2t : 2 <= 2 ^ t).
    { change 2 with (2 ^ 1) at 1. apply Z.pow_le_mono_r; lia. }
    destruct (2 ^ (-4 - e) - Z.pos m) as [|M|M] eqn:HM; try nia.
    cbn [binary_normalize].
    destruct t as [|tp|tp] eqn:Et; try lia.
    assert (HdM : Z.pos (digits2_pos M) = 53 + Z.pos tp).
    { apply digits_unique.
      replace (53 + Z.pos tp - 1) with (52 + Z.pos tp) by lia.
      rewrite !Z.pow_add_r by lia.
      change (2 ^ 53) with (2 * 2 ^ 52) in *. nia. }
    assert (Hg : e + Z.pos tp = -57) by lia.
    destruct (binary_round_down false M tp e HdM ltac:(lia))
      as [(mw & Hr & Hw)|Hr]; rewrite Hr, Hg.
    + rewrite sub_from_sixteenth by lia. change (-4 - -57) with 53.
      destruct (2 ^ 53 - Z.pos mw) as [|q|q] eqn:Hq; try lia.
      right. exists q. split; [lia|reflexivity].
    + left. reflexivity.
Qed.

(** What being on the grid gives: with either sign, the magnitude is
    below 1/16 and, unless it is zero, at least 2^-57; and the value is an
    integer multiple of 2^-57. *)
Lemma grid_facts (R : spec_float) (s : bool) :
  R = S754_zero false
  \/ (exists q : positive,
        Z.pos q < 2 ^ 53 /\ R = binary_round prec emax false q (-57)) ->
  let R' := if s then SFopp R else R in
  SFltb (SFabs R') sixteenth = true
  /\ (SFeqb R' (S754_zero false) = true
      \/ SFleb (S754_finite false 4503599627370496 (-109)) (SFabs R') = true)
  /\ exists k : Z, (SF2Q R' == inject_Z k * 2 ^ (-57))%Q.
Proof.
  intros [->|(q & Hq & ->)]; cbv zeta.
  - split; [|split].
    + destruct s; reflexivity.
    + left. destruct s; reflexivity.
    + exists 0. destruct s; cbn [SFopp SF2Q]; rewrite Qmult_0_l; reflexivity.
  - assert (Hd : Z.pos (digits2_pos q) <= 53) by (apply digits_le_53; lia).
    destruct (binary_round_exact false q (-57) Hd ltac:(lia))
      as (mz & Hr & Hmz & Hdz).
    rewrite Hr. set (j := 53 - Z.pos (digits2_pos q)) in *.
    assert (Hj : 0 <= j <= 52) by (subst j; lia).
    pose proof (digits2_pos_bounds mz) as Hb. rewrite Hdz in Hb.
    change (2 ^ (53 - 1)) with 4503599627370496 in Hb.
    assert (Ha : SFabs (if s then SFopp (S754_finite false mz (-57 - j))
                        else S754_finite false mz (-57 - j))
                 = S754_finite false mz (-57 - j))
      by (destruct s; reflexivity).
    rewrite Ha. split; [|split].
    + unfold SFltb, SFcompare.
      destruct (Z.compare_spec (-57 - j) (-56)); try reflexivity; lia.
    + right. unfold SFleb, SFcompare. rewrite compare_cont_Z.
      destruct (Z.compare_spec (-109) (-57 - j)); try reflexivity; try lia.
      destruct (Z.compare_spec 4503599627370496 (Z.pos mz));
        try reflexivity; lia.
    + exists (cond_Zopp s (Z.pos q)).
      assert (Hv : SF2Q (if s then SFopp (S754_finite false mz (-57 - j))
                         else S754_finite false mz (-57 - j))
                   = (inject_Z (cond_Zopp s (Z.pos mz)) * 2 ^ (-57 - j))%Q)
        by (destruct s; reflexivity).
      rewrite Hv.
      replace (cond_Zopp s (Z.pos mz)) with (cond_Zopp s (Z.pos q) * 2 ^ j)
        by (destruct s; cbn [cond_Zopp]; lia).
      apply Q_shift. lia.
Qed.

Local Open Scope float_scope.

Lemma AngRound_small (x : float) :
  (abs x <? 0.0625) = true ->
  (abs (Geodesic.AngRound x) <? 0.0625) = true
  /\ ((Geodesic.AngRound x =? 0) = true
      \/ (0x1p-57 <=? abs (Geodesic.AngRound x)) = true)
  /\ exists k : Z, (value (Geodesic.AngRound x) == inject_Z k * 2 ^ (-57))%Q.
Proof.
  intros Hx. unfold Geodesic.AngRound. cbv zeta. rewrite Hx.
  set (r := 0.0625 - (0.0625 - abs x)).
  assert (Hr : Prim2SF r = S754_zero false
               \/ exists q : positive,
                    (Z.pos q < 2 ^ 53)%Z
                    /\ Prim2SF r = binary_round prec emax false q (-57)).
  { subst r. rewrite !sub_spec, Prim2SF_sixteenth. unfold SF64sub.
    destruct (abs_small_repr x Hx) as [->|(m & e & -> & He & Hd & Hn)].
    - left. reflexivity.
    - apply round_to_grid; assumption. }
  assert (Hs : Prim2SF (if x <? 0 then - r else r)
               = if x <? 0 then SFopp (Prim2SF r) else Prim2SF r)
    by (destruct (x <? 0); [apply opp_spec|reflexivity]).
  rewrite FloatAxioms.ltb_spec, FloatAxioms.eqb_spec, FloatAxioms.leb_spec.
  unfold value. rewrite abs_spec, Hs, Prim2SF_sixteenth.
  change (Prim2SF 0) with (S754_zero false).
  change (Prim2SF 0x1p-57) with (S754_finite false 4503599627370496 (-109)).
  apply (grid_facts (Prim2SF r) (x <? 0) Hr).
Qed.

(** X19: For [|x| < 1/16], [AngRound x] is an integer multiple of 2^-57 of
    magnitude below 1/16: it is zero, or at least 2^-57 in magnitude, so no
    non-zero angle smaller than 2^-57 leaves [AngRound]. *)
Theorem AngRound_grid (x : float) :
  (abs x <? 0.0625) = true ->
  (abs (Geodesic.AngRound x) <? 0.0625) = true
  /\ ((Geodesic.AngRound x =? 0) = true
      \/ (0x1p-57 <=? abs (Geodesic.AngRound x)) = true)
  /\ exists k : Z, (value (Geodesic.AngRound x) == inject_Z k * 2 ^ (-57))%Q.
Proof. exact (AngRound_small x). Qed.

Lemma AngRound_grid_witness :
  (abs 0x1.4p-60 <? 0.0625) = true
  /\ (Geodesic.AngRound 0x1.4p-60 =? 0) = true
  /\ (abs 0x1.8p-57 <? 0.0625) = true
  /\ (0x1p-57 <=? abs (Geodesic.AngRound 0x1.8p-57)) = true
  /\ (abs (Geodesic.AngRound 0x1.8p-57) <? 0.0625) = true.
Proof.
  split; [reflexivity|]. split; [reflexivity|]. split; [reflexivity|].
  destruct (AngRound_grid 0x1.8p-57 eq_refl) as (Ha & _ & _).
  split; [reflexivity|exact Ha].
Defined.

(** *** The angles the constructor stores *)

Lemma small_in_range (r : float) :
  (abs r <? 0.0625) = true -> (-180 <=? r) = true /\ (r <? 180) = true.
Proof.
  rewrite FloatAxioms.ltb_spec, FloatAxioms.leb_spec, FloatAxioms.ltb_spec,
    abs_spec, Prim2SF_sixteenth, Prim2SF_m180, Prim2SF_180.
  unfold SFltb, SFleb.
  destruct (Prim2SF r) as [s|s| |s m e]; cbn [SFabs]; try discriminate;
    [intros _; destruct s; split; reflexivity|].
  unfold SFcompare.
  destruct (Z.compare_spec e (-56)) as [He|He|He]; try discriminate;
    intros _; destruct s;
    destruct (Z.compare_spec (-45) e); try lia;
    destruct (Z.compare_spec e (-45)); try lia; split; reflexivity.
Qed.

Lemma large_above_grid (a : float) :
  (0.0625 <=? abs a) = true -> (0x1p-57 <=? abs a) = true.
Proof.
  rewrite !FloatAxioms.leb_spec, abs_spec, Prim2SF_sixteenth.
  change (Prim2SF 0x1p-57) with (S754_finite false 4503599627370496 (-109)).
  unfold SFleb.
  destruct (Prim2SF a) as [s|s| |s m e]; cbn [SFabs]; try discriminate;
    try reflexivity.
  unfold SFcompare.
  destruct (Z.compare_spec (-56) e) as [He|He|He]; try discriminate;
    intros _; destruct (Z.compare_spec (-109) e); try lia; reflexivity.
Qed.

Lemma AngRound_keeps_range (a : float) :
  (-180 <=? a) = true -> (a <? 180) = true ->
  (-180 <=? Geodesic.AngRound a) = true
  /\ (Geodesic.AngRound a <? 180) = true
  /\ ((Geodesic.AngRound a =? 0) = true
      \/ (0x1p-57 <=? abs (Geodesic.AngRound a)) = true).
Proof.
  intros Hlo Hhi.
  destruct (abs a <? 0.0625) eqn:Hs.
  - destruct (AngRound_small a Hs) as (Hr & Hz & _).
    destruct (small_in_range _ Hr) as [H1 H2].
    repeat split; assumption.
  - assert (Hl : (0.0625 <=? abs a) = true).
    { apply not_ltb_leb; [|reflexivity|assumption].
      rewrite abs_number. apply (ltb_number _ _ Hhi). }
    rewrite (AngRound_large a Hl).
    repeat split; try assumption. right. apply large_above_grid, Hl.
Qed.

(** X20: For [lon1] and [azi1] in [-540, 540) the constructor stores both in
    [-180, 180); and the azimuth it stores is zero or at least 2^-57 in
    magnitude, which is the guard against underflow in [salp0]. *)
Theorem ctor_stores_normalised_angles (E : Externals) (u : GeodesicLine.t)
    (g : Geodesic.t) (lat1 lon1 azi1 : float) (caps : Z) :
  let l := GeodesicLine_ctor E u g lat1 lon1 azi1 caps in
  ((-540 <=? lon1) = true -> (lon1 <? 540) = true ->
   (-180 <=? GeodesicLine._lon1 l) = true
   /\ (GeodesicLine._lon1 l <? 180) = true)
  /\ ((-540 <=? azi1) = true -> (azi1 <? 540) = true ->
      (-180 <=? GeodesicLine._azi1 l) = true
      /\ (GeodesicLine._azi1 l <? 180) = true
      /\ ((GeodesicLine._azi1 l =? 0) = true
          \/ (0x1p-57 <=? abs (GeodesicLine._azi1 l)) = true)).
Proof.
  intros l. split.
  - intros Hlo Hhi.
    change (GeodesicLine._lon1 l) with (Geodesic.AngNormalize lon1).
    apply AngNormalize_lands; assumption.
  - intros Hlo Hhi.
    change (GeodesicLine._azi1 l)
      with (Geodesic.AngRound (Geodesic.AngNormalize azi1)).
    destruct (AngNormalize_lands azi1 Hlo Hhi) as [Ha Hb].
    apply AngRound_keeps_range; assumption.
Qed.
End Grid.
(** ** The pole guard survives the normalisation

    [cbet1 / hypot(sbet1, cbet1)] is followed through [SpecFloat]'s
    division: the quotient of two positive floats is never below a float
    that the exact quotient is not below. *)

Section Quotient.
Local Open Scope Z_scope.



End Quotient.

Section QuotientBound.
Local Open Scope Z_scope.



End QuotientBound.

Section DivisionBound.
Local Open Scope Z_scope.






End DivisionBound.

Section PoleGuard.
Import Mask GeodesicLine.
Local Open Scope float_scope.

Ltac to_SFcompare :=
  rewrite ?FloatAxioms.ltb_spec, ?FloatAxioms.leb_spec, ?FloatAxioms.eqb_spec;
  unfold SFltb, SFleb, SFeqb.










End PoleGuard.
